(** * SpeedTestHackathon: a shallow embedding of the speed-test protocol

    The development follows the four Python sources:
    - [Constants.py]: the protocol constants and the three [struct] formats;
    - [NetworkSpeedTest_Server.py]: the UDP segmenter, the TCP streamer and
      the two request listeners;
    - [NetworkSpeedTest_Client.py]: offer discovery, the UDP receive loop and
      the two statistics computations.

    Python integers are [Z], [bytes] values are [list byte], Python floats are
    IEEE 754 binary64 values of the Standard Library's [SpecFloat].  Sockets
    are modelled by the sequence of outcomes of the calls made on them. *)

From Stdlib Require Import String Ascii.
From Stdlib Require Import ZArith List Bool Lia Permutation.
From Stdlib.Strings Require Import Byte.
From Stdlib.Floats Require Import SpecFloat.
From Equations Require Import Equations.
Import ListNotations.

Open Scope Z_scope.

(** ** Bytes and big-endian integers *)

Module Bytes.

Definition Z_of_byte (b : byte) : Z := Z.of_N (Byte.to_N b).

(** The byte with value [z mod 256]. *)
Definition byte_of_Z (z : Z) : byte :=
  match Byte.of_N (Z.to_N (z mod 256)) with
  | Some b => b
  | None => x00
  end.

(** [n] bytes of [v], most significant first. *)
Fixpoint be_bytes (n : nat) (v : Z) : list byte :=
  match n with
  | O => []
  | S k => byte_of_Z (v / 2 ^ (8 * Z.of_nat k)) :: be_bytes k v
  end.

(** The unsigned integer denoted by a big-endian byte string. *)
Definition be_value (bs : list byte) : Z :=
  fold_left (fun acc b => acc * 256 + Z_of_byte b) bs 0.

(** [b"X" * n]: Python yields the empty string for [n <= 0]. *)
Definition repeat_byte (b : byte) (n : Z) : list byte :=
  repeat b (Z.to_nat n).

Definition len (bs : list byte) : Z := Z.of_nat (length bs).

End Bytes.

(** ** Python's [struct] module, for the formats the protocol uses *)

Module Struct.
Import Bytes.

(** Format characters: [L] unsigned 32 bit, [B] unsigned 8 bit,
    [H] unsigned 16 bit, [Q] unsigned 64 bit. *)
Inductive code := code_L | code_B | code_H | code_Q.

Definition code_size (c : code) : nat :=
  match c with
  | code_L => 4
  | code_B => 1
  | code_H => 2
  | code_Q => 8
  end%nat.

Definition code_of_ascii (a : ascii) : option code :=
  match a with
  | "L"%char => Some code_L
  | "B"%char => Some code_B
  | "H"%char => Some code_H
  | "Q"%char => Some code_Q
  | _ => None
  end.

Fixpoint codes_of_string (s : string) : option (list code) :=
  match s with
  | EmptyString => Some []
  | String a s' =>
      match code_of_ascii a, codes_of_string s' with
      | Some c, Some cs => Some (c :: cs)
      | _, _ => None
      end
  end.

(** A format is the byte-order mark ["!"] (network order: big-endian,
    standard sizes, no padding) followed by format characters. *)
Definition parse_format (fmt : string) : option (list code) :=
  match fmt with
  | String "!"%char s => codes_of_string s
  | _ => None
  end.

Definition codes_size (cs : list code) : nat :=
  fold_right (fun c n => (code_size c + n)%nat) 0%nat cs.

(** [struct.calcsize]; an unsupported format has no size. *)
Definition calcsize (fmt : string) : option nat :=
  option_map codes_size (parse_format fmt).

Definition in_range (c : code) (v : Z) : bool :=
  (0 <=? v) && (v <? 2 ^ (8 * Z.of_nat (code_size c))).

(** [None] stands for [struct.error]: a wrong number of arguments or a
    value outside the range of its format character. *)
Fixpoint pack_codes (cs : list code) (vs : list Z) : option (list byte) :=
  match cs, vs with
  | [], [] => Some []
  | c :: cs', v :: vs' =>
      if in_range c v
      then option_map (app (be_bytes (code_size c) v)) (pack_codes cs' vs')
      else None
  | _, _ => None
  end.

Definition pack (fmt : string) (vs : list Z) : option (list byte) :=
  match parse_format fmt with
  | Some cs => pack_codes cs vs
  | None => None
  end.

Fixpoint split_fields (cs : list code) (bs : list byte) : list Z :=
  match cs with
  | [] => []
  | c :: cs' =>
      be_value (firstn (code_size c) bs)
        :: split_fields cs' (skipn (code_size c) bs)
  end.

(** [struct.unpack] requires a buffer of exactly [calcsize fmt] bytes and
    raises [struct.error] ([None]) for any other length. *)
Definition unpack (fmt : string) (data : list byte) : option (list Z) :=
  match parse_format fmt with
  | Some cs =>
      if Nat.eqb (length data) (codes_size cs)
      then Some (split_fields cs data)
      else None
  | None => None
  end.

End Struct.

(** ** Constants.py *)

Module Constants.

Definition MAGIC_COOKIE : Z := 0xabcddcba.
Definition MSG_TYPE_OFFER : Z := 0x2.
Definition MSG_TYPE_REQUEST : Z := 0x3.
Definition MSG_TYPE_PAYLOAD : Z := 0x4.

Definition DEFAULT_UDP_PORT : Z := 13117.

Definition TCP_RECEIVE_BUFFER_SIZE : Z := 4096.
Definition UDP_PAYLOAD_SIZE : Z := 1024.

Definition OFFER_STRUCT_FORMAT : string := "!LBHH".
Definition REQUEST_STRUCT_FORMAT : string := "!LBQ".
Definition PAYLOAD_STRUCT_FORMAT : string := "!LBQQ".

End Constants.

(** ** Python floats and the exceptions of the arithmetic used *)

Module PyFloat.

Definition prec : Z := 53.
Definition emax : Z := 1024.

(** A Python [float] is an IEEE 754 binary64 value. *)
Definition float : Type := spec_float.

Inductive exn := ZeroDivisionError | OverflowError.

Inductive py (A : Type) : Type :=
| Ok (a : A)
| Raise (e : exn).
Arguments Ok {A} a.
Arguments Raise {A} e.

Definition bind {A B : Type} (m : py A) (k : A -> py B) : py B :=
  match m with
  | Ok a => k a
  | Raise e => Raise e
  end.

Definition is_zero (x : float) : bool :=
  match x with
  | S754_zero _ => true
  | _ => false
  end.

Definition is_infinity (x : float) : bool :=
  match x with
  | S754_infinity _ => true
  | _ => false
  end.

Definition is_nan (x : float) : bool :=
  match x with
  | S754_nan => true
  | _ => false
  end.

(** The binary64 value nearest to an integer (ties to even). *)
Definition nearest (z : Z) : float := binary_normalize prec emax z 0 false.

(** [float(z)]: an integer too large for a binary64 raises. *)
Definition float_of_int (z : Z) : py float :=
  let f := nearest z in
  if is_infinity f then Raise OverflowError else Ok f.

(** An integer as an exact, not normalised, mantissa with exponent 0. *)
Definition exact (z : Z) : float :=
  match z with
  | Z0 => S754_zero false
  | Zpos p => S754_finite false p 0
  | Zneg p => S754_finite true p 0
  end.

(** [a / b] on two integers: the correctly rounded quotient. *)
Definition int_truediv (a b : Z) : py float :=
  if b =? 0 then Raise ZeroDivisionError
  else
    let q := SFdiv prec emax (exact a) (exact b) in
    if is_infinity q then Raise OverflowError else Ok q.

(** [x / y] on two floats. *)
Definition float_truediv (x y : float) : py float :=
  if is_zero y then Raise ZeroDivisionError else Ok (SFdiv prec emax x y).

Definition float_mul (x y : float) : float := SFmul prec emax x y.
Definition float_sub (x y : float) : float := SFsub prec emax x y.

(** [x > y]; false as soon as one side is a NaN. *)
Definition float_gt (x y : float) : bool := SFltb y x.
Definition float_ge (x y : float) : bool := SFleb y x.

(** [max(x, y)]: the built-in keeps its first argument unless the second
    compares greater. *)
Definition max2 (x y : float) : float := if float_gt y x then y else x.

(** The literals [0.0], [1.0], [10], [100] and [1e-6]. *)
Definition lit_0_0 : float := S754_zero false.
Definition lit_1_0 : float := nearest 1.
Definition lit_10 : float := nearest 10.
Definition lit_100 : float := nearest 100.
Definition lit_1e_6 : float := SFdiv prec emax (nearest 1) (nearest 1000000).

End PyFloat.

(** ** Sockets *)

Module Net.

(** A socket address: host and port. *)
Definition address : Type := (string * Z)%type.

(** [range(n)] *)
Definition range (n : Z) : list Z := map Z.of_nat (seq 0 (Z.to_nat n)).

(** One [recvfrom] call on a UDP socket with a timeout: a datagram and its
    sender, [socket.timeout], [KeyboardInterrupt], or any other
    exception. *)
Inductive recvfrom_event :=
| Datagram (data : list byte) (addr : address)
| SockTimeout
| Interrupt
| OtherError.

(** One [recv] call on a TCP socket: some bytes, the empty string of a
    closed connection, or an exception. *)
Inductive recv_event :=
| Chunk (data : list byte)
| Closed
| RecvError.

End Net.

(** ** NetworkSpeedTest_Server.py *)

Module Server.
Import Bytes Struct Constants Net.

(** *** [handle_udp_transfer] *)

Inductive transfer_status :=
| Completed        (* the [for] loop ran to its end *)
| SendFailed       (* a [sendto] raised: logged, [break] *)
| PackFailed.      (* [struct.pack] raised outside the [try] *)

Definition total_segments (file_size : Z) : Z :=
  file_size / UDP_PAYLOAD_SIZE
  + (if file_size mod UDP_PAYLOAD_SIZE =? 0 then 0 else 1).

Definition data_this_segment (file_size i : Z) : Z :=
  Z.min UDP_PAYLOAD_SIZE (file_size - i * UDP_PAYLOAD_SIZE).

Definition payload_header (total current_seg : Z) : option (list byte) :=
  pack PAYLOAD_STRUCT_FORMAT
    [MAGIC_COOKIE; MSG_TYPE_PAYLOAD; total; current_seg].

(** The body of the loop over [range(total_segments)]; [sendto_ok i] says
    whether the [sendto] of iteration [i] succeeds. *)
Fixpoint send_segments (sendto_ok : Z -> bool) (file_size total : Z)
    (indices : list Z) : list (list byte) * transfer_status :=
  match indices with
  | [] => ([], Completed)
  | i :: rest =>
      let current_seg := i + 1 in
      match payload_header total current_seg with
      | None => ([], PackFailed)
      | Some header =>
          let dummy_data := repeat_byte "Y" (data_this_segment file_size i) in
          if sendto_ok i then
            let (sent, st) := send_segments sendto_ok file_size total rest in
            ((header ++ dummy_data) :: sent, st)
          else ([], SendFailed)
      end
  end.

Definition handle_udp_transfer (sendto_ok : Z -> bool) (file_size : Z)
    : list (list byte) * transfer_status :=
  let total := total_segments file_size in
  send_segments sendto_ok file_size total (range total).

(** *** [listen_udp_requests] *)

Inductive udp_action :=
| SpawnTransfer (addr : address) (file_size : Z)
| Dropped               (* nothing happens, the loop goes on *)
| LoggedError           (* an exception was caught and printed *)
| Uncaught.             (* not an [Exception]: the loop is left *)

(** One iteration on a received datagram.  The unpacking is done on the
    whole datagram, so it raises for one longer than the format. *)
Definition on_request (data : list byte) (addr : address) : udp_action :=
  match calcsize REQUEST_STRUCT_FORMAT with
  | None => LoggedError
  | Some size =>
      if (size <=? length data)%nat then
        match unpack REQUEST_STRUCT_FORMAT data with
        | Some [magic_cookie_val; msg_type_val; file_size] =>
            if (magic_cookie_val =? MAGIC_COOKIE)
               && (msg_type_val =? MSG_TYPE_REQUEST)
            then SpawnTransfer addr file_size
            else Dropped
        | _ => LoggedError
        end
      else Dropped
  end.

Definition udp_step (ev : recvfrom_event) : udp_action :=
  match ev with
  | Datagram data addr => on_request data addr
  | SockTimeout => Dropped
  | OtherError => LoggedError
  | Interrupt => Uncaught
  end.

(** The loop on a sequence of [recvfrom] outcomes: the transfers spawned,
    in order. *)
Fixpoint listen_udp_requests (evs : list recvfrom_event)
    : list (address * Z) :=
  match evs with
  | [] => []
  | ev :: evs' =>
      match udp_step ev with
      | SpawnTransfer addr file_size =>
          (addr, file_size) :: listen_udp_requests evs'
      | Dropped | LoggedError => listen_udp_requests evs'
      | Uncaught => []
      end
  end.

(** *** [send_tcp_data] *)

Inductive send_status :=
| SendDone       (* the [while] condition became false *)
| SendError.     (* a [sendall] raised: logged, [break] *)

Definition chunk_size : Z := 4096.

(** The [while bytes_sent < size] loop; [sendall_ok k] says whether the
    [k]-th [sendall] on the socket succeeds.  The result is the list of
    buffers written and the way the loop ended. *)
Equations? send_loop (sendall_ok : nat -> bool) (size bytes_sent : Z)
    (k : nat) : list (list byte) * send_status
    by wf (Z.to_nat (size - bytes_sent)) lt :=
  send_loop sendall_ok size bytes_sent k with Z_lt_dec bytes_sent size := {
    | left _ =>
        let to_send := Z.min chunk_size (size - bytes_sent) in
        if sendall_ok k then
          let r := send_loop sendall_ok size (bytes_sent + to_send) (S k) in
          (repeat_byte "X" to_send :: fst r, snd r)
        else ([], SendError)
    | right _ => ([], SendDone) }.
Proof. unfold chunk_size in *. lia. Qed.

Definition send_tcp_data (sendall_ok : nat -> bool) (size : Z)
    : list (list byte) * send_status :=
  send_loop sendall_ok size 0 0.

(** *** [handle_tcp_client] *)

(** [data.endswith(b"\n")] *)
Definition endswith_newline (data : list byte) : bool :=
  match rev data with
  | b :: _ => Byte.eqb b x0a
  | [] => false
  end.

(** The bytes [bytes.strip] removes: space, tab, line feed, vertical tab,
    form feed, carriage return. *)
Definition is_space (b : byte) : bool :=
  match b with
  | x20 | x09 | x0a | x0b | x0c | x0d => true
  | _ => false
  end.

Fixpoint lstrip (data : list byte) : list byte :=
  match data with
  | b :: rest => if is_space b then lstrip rest else data
  | [] => []
  end.

Definition strip (data : list byte) : list byte :=
  rev (lstrip (rev (lstrip data))).

Inductive read_outcome :=
| Line (data : list byte)   (* a newline ended the request *)
| PeerClosed                (* [recv] returned the empty string *)
| ReadError                 (* [recv] raised *)
| Waiting.                  (* no outcome yet: [recv] is blocking *)

(** The [while not data.endswith(b"\n")] loop over the outcomes of the
    successive [recv(1)] calls. *)
Fixpoint read_request (conn : list recv_event) (data : list byte)
    : read_outcome :=
  if endswith_newline data then Line data
  else
    match conn with
    | [] => Waiting
    | Chunk chunk :: conn' =>
        match chunk with
        | [] => PeerClosed
        | _ => read_request conn' (data ++ chunk)
        end
    | Closed :: _ => PeerClosed
    | RecvError :: _ => ReadError
    end.

Inductive tcp_outcome :=
| ClosedEarly                 (* the client closed before a newline *)
| InvalidSize                 (* [int] raised [ValueError] *)
| ClientError                 (* the outer [except Exception] *)
| Served (file_size : Z) (st : send_status)
| Reading.                    (* the handler is still in its read loop *)

Inductive log_line :=
| LogInvalidFileSize (size_str : string)
| LogRequested (file_size : Z)
| LogSendError
| LogClientError.

Record tcp_result := {
  outcome : tcp_outcome;
  written : list (list byte);    (* the buffers given to [sendall] *)
  printed : list log_line;
  sock_closed : bool             (* the [finally] clause has run *)
}.

Section HandleTcpClient.

(** [bytes.decode] (UTF-8; [None] is [UnicodeDecodeError]) and the
    built-in [int] on a string ([None] is [ValueError]). *)
Variable decode : list byte -> option string.
Variable int : string -> option Z.

Definition handle_tcp_client (conn : list recv_event)
    (sendall_ok : nat -> bool) : tcp_result :=
  match read_request conn [] with
  | Waiting =>
      {| outcome := Reading; written := []; printed := [];
         sock_closed := false |}
  | PeerClosed =>
      {| outcome := ClosedEarly; written := []; printed := [];
         sock_closed := true |}
  | ReadError =>
      {| outcome := ClientError; written := [];
         printed := [LogClientError]; sock_closed := true |}
  | Line data =>
      match decode (strip data) with
      | None =>
          {| outcome := ClientError; written := [];
             printed := [LogClientError]; sock_closed := true |}
      | Some size_str =>
          match int size_str with
          | None =>
              {| outcome := InvalidSize; written := [];
                 printed := [LogInvalidFileSize size_str];
                 sock_closed := true |}
          | Some file_size =>
              let r := send_tcp_data sendall_ok file_size in
              {| outcome := Served file_size (snd r);
                 written := fst r;
                 printed :=
                   LogRequested file_size ::
                   match snd r with
                   | SendError => [LogSendError]
                   | SendDone => []
                   end;
                 sock_closed := true |}
          end
      end
  end.

(** *** [listen_tcp] *)

(** One [accept] call: a connection (the outcomes of the calls that will
    be made on its socket), [socket.timeout], or another exception. *)
Inductive accept_event :=
| Accepted (conn : list recv_event) (sendall_ok : nat -> bool)
| AcceptTimeout
| AcceptError.

(** The accept loop on a sequence of [accept] outcomes.  Each accepted
    connection gets a handler of its own, which works on nothing but
    its socket; the result lists what each handler does. *)
Fixpoint listen_tcp (evs : list accept_event) : list tcp_result :=
  match evs with
  | [] => []
  | Accepted conn sendall_ok :: evs' =>
      handle_tcp_client conn sendall_ok :: listen_tcp evs'
  | AcceptTimeout :: evs' => listen_tcp evs'
  | AcceptError :: evs' => listen_tcp evs'
  end.

End HandleTcpClient.

(** *** [broadcast_offers] *)

Inductive broadcast_tick :=
| Broadcast (offer_packet : list byte)   (* the packet given to [sendto] *)
| BroadcastError.                        (* an exception, printed *)

(** The body of the loop: packing and sending are both inside the [try];
    [sendto_ok] says whether the [sendto] succeeds. *)
Definition broadcast_once (server_udp_port server_tcp_port : Z)
    (sendto_ok : bool) : broadcast_tick :=
  match pack OFFER_STRUCT_FORMAT
          [MAGIC_COOKIE; MSG_TYPE_OFFER; server_udp_port; server_tcp_port] with
  | None => BroadcastError
  | Some offer_packet =>
      if sendto_ok then Broadcast offer_packet else BroadcastError
  end.

(** The loop, one pass per interval while the server runs. *)
Definition broadcast_offers (server_udp_port server_tcp_port : Z)
    (ticks : list bool) : list broadcast_tick :=
  map (broadcast_once server_udp_port server_tcp_port) ticks.

End Server.

(** ** NetworkSpeedTest_Client.py *)

Module Client.
Import Bytes Struct Constants Net PyFloat.

(** *** [listen_for_offer] *)

Inductive offer_result :=
| OfferFound (server_ip : string) (srv_udp_port srv_tcp_port : Z)
| DeadlineElapsed     (* returns [None] after the 10 seconds *)
| ReceiveFailed       (* [except Exception]: returns [None] *)
| Exited              (* [KeyboardInterrupt]: [sys.exit(0)] *)
| Listening.          (* the loop has not returned yet *)

(** What the function returns to [run], when it returns. *)
Definition returned (r : offer_result) : option (option (string * Z * Z)) :=
  match r with
  | OfferFound ip u t => Some (Some (ip, u, t))
  | DeadlineElapsed | ReceiveFailed => Some None
  | Exited | Listening => None
  end.

(** What one received datagram does to the loop. *)
Inductive offer_step :=
| Accept (server_ip : string) (srv_udp_port srv_tcp_port : Z)
| Skip          (* falls through to the next iteration *)
| Fail.         (* an exception reaches [except Exception] *)

Definition on_offer (data : list byte) (addr : address) : offer_step :=
  match calcsize OFFER_STRUCT_FORMAT with
  | None => Fail
  | Some size =>
      if (size <=? length data)%nat then
        match unpack OFFER_STRUCT_FORMAT data with
        | Some [mc_val; msg_val; srv_udp_port; srv_tcp_port] =>
            if (mc_val =? MAGIC_COOKIE) && (msg_val =? MSG_TYPE_OFFER)
            then Accept (fst addr) srv_udp_port srv_tcp_port
            else Skip
        | _ => Fail
        end
      else Skip
  end.

(** The [while True] loop.  Each iteration reads the clock and, unless the
    deadline has passed, calls [recvfrom]; the trace gives both. *)
Fixpoint offer_loop (start_time : float)
    (trace : list (float * recvfrom_event)) : offer_result :=
  match trace with
  | [] => Listening
  | (now, ev) :: rest =>
      if float_gt (float_sub now start_time) lit_10 then DeadlineElapsed
      else
        match ev with
        | Datagram data addr =>
            match on_offer data addr with
            | Accept ip u t => OfferFound ip u t
            | Skip => offer_loop start_time rest
            | Fail => ReceiveFailed
            end
        | SockTimeout => offer_loop start_time rest
        | Interrupt => Exited
        | OtherError => ReceiveFailed
        end
  end.

Definition listen_for_offer (start_time : float)
    (trace : list (float * recvfrom_event)) : offer_result :=
  offer_loop start_time trace.

(** *** Statistics *)

(** [max(end_time - start_time, 1e-6)] *)
Definition duration (start_time end_time : float) : float :=
  max2 (float_sub end_time start_time) lit_1e_6.

(** [(received * 8) / duration] *)
Definition speed_bps (received : Z) (duration : float) : py float :=
  bind (float_of_int (received * 8)) (fun bits => float_truediv bits duration).

(** [success_rate = 0.0], replaced by
    [(segments_received / total_segments) * 100] if [total_segments > 0]. *)
Definition success_rate (segments_received total_segments : Z) : py float :=
  if total_segments >? 0 then
    bind (int_truediv segments_received total_segments)
         (fun ratio => Ok (float_mul ratio lit_100))
  else Ok lit_0_0.

(** *** [handle_tcp_transfer] *)

(** The [while received < file_size] loop over the outcomes of the
    [recv] calls; a raised exception leaves the [try] block.  [None]: the
    trace ends while the loop is still receiving. *)
Fixpoint tcp_receive (file_size received : Z) (trace : list recv_event)
    : option Z :=
  if received <? file_size then
    match trace with
    | [] => None
    | Chunk chunk :: rest =>
        match chunk with
        | [] => Some received
        | _ => tcp_receive file_size (received + len chunk) rest
        end
    | Closed :: _ => Some received
    | RecvError :: _ => Some received
    end
  else Some received.

Record tcp_report := {
  tcp_received : Z;
  tcp_duration : float;
  tcp_speed_bps : py float
}.

(** [connected]: whether [connect] and the [sendall] of the request
    succeed; otherwise nothing is received. *)
Definition handle_tcp_transfer (file_size : Z) (connected : bool)
    (trace : list recv_event) (start_time end_time : float)
    : option tcp_report :=
  match (if connected then tcp_receive file_size 0 trace else Some 0) with
  | None => None
  | Some received =>
      let d := duration start_time end_time in
      Some {| tcp_received := received;
              tcp_duration := d;
              tcp_speed_bps := speed_bps received d |}
  end.

(** *** [handle_udp_transfer] *)

Definition UDP_TRANSFER_TIMEOUT : float := lit_1_0.

Record udp_state := {
  total_bytes : Z;
  total_segments : Z;
  segments_received : Z;
  last_data_time : float
}.

Inductive udp_step :=
| Continue (st : udp_state)
| Break
| Propagate.     (* an exception nothing catches: the thread dies *)

(** The [try] body on a received datagram; [now] is the clock. *)
Definition on_payload (st : udp_state) (data : list byte) (now : float)
    : udp_step :=
  match calcsize PAYLOAD_STRUCT_FORMAT with
  | None => Propagate
  | Some size =>
      if (length data <? size)%nat then Continue st
      else
        match unpack PAYLOAD_STRUCT_FORMAT (firstn size data) with
        | Some [mc; mt; total_seg; current_seg] =>
            if negb (mc =? MAGIC_COOKIE) || negb (mt =? MSG_TYPE_PAYLOAD)
            then Continue st
            else
              let payload_data := skipn size data in
              Continue
                {| total_bytes := total_bytes st + len payload_data;
                   total_segments := total_seg;
                   segments_received := segments_received st + 1;
                   last_data_time := now |}
        | _ => Propagate
        end
  end.

(** One iteration: the outcome of [recvfrom] and the clock value any
    [time.time()] of the iteration reads. *)
Definition udp_iteration (st : udp_state) (now : float)
    (ev : recvfrom_event) : udp_step :=
  match ev with
  | Datagram data _ => on_payload st data now
  | SockTimeout =>
      if float_gt (float_sub now (last_data_time st)) UDP_TRANSFER_TIMEOUT
      then Break
      else Continue st
  | Interrupt | OtherError => Propagate
  end.

Inductive loop_result :=
| Finished (st : udp_state)
| Receiving (st : udp_state)    (* the trace ends, the loop has not *)
| Died.

Fixpoint udp_receive (st : udp_state)
    (trace : list (float * recvfrom_event)) : loop_result :=
  match trace with
  | [] => Receiving st
  | (now, ev) :: rest =>
      match udp_iteration st now ev with
      | Continue st' => udp_receive st' rest
      | Break => Finished st
      | Propagate => Died
      end
  end.

Record udp_report := {
  udp_final : udp_state;
  udp_duration : float;
  udp_speed_bps : py float;
  udp_success_rate : py float
}.

Definition request_packet (file_size : Z) : option (list byte) :=
  pack REQUEST_STRUCT_FORMAT [MAGIC_COOKIE; MSG_TYPE_REQUEST; file_size].

Inductive udp_result :=
| Reported (r : udp_report)
| StillReceiving
| ThreadDied.

(** [start_time], [sent_time] and [end_time] are the three clock readings
    outside the loop; [request_sent] says whether the [sendto] of the
    request succeeds.  Packing and sending are outside any [try]. *)
Definition handle_udp_transfer (file_size : Z) (request_sent : bool)
    (start_time sent_time : float)
    (trace : list (float * recvfrom_event)) (end_time : float)
    : udp_result :=
  match request_packet file_size with
  | None => ThreadDied
  | Some _ =>
    if negb request_sent then ThreadDied else
      let st0 := {| total_bytes := 0; total_segments := 0;
                    segments_received := 0; last_data_time := sent_time |} in
      match udp_receive st0 trace with
      | Died => ThreadDied
      | Receiving _ => StillReceiving
      | Finished st =>
          let d := duration start_time end_time in
          Reported
            {| udp_final := st;
               udp_duration := d;
               udp_speed_bps := speed_bps (total_bytes st) d;
               udp_success_rate :=
                 success_rate (segments_received st) (total_segments st) |}
      end
  end.

(** *** [get_user_input] *)

(** The answers typed at the three prompts, in order; [int] is the built-in
    ([None]: [ValueError]).  A [ValueError], raised by [int] or by the
    check, starts the loop again at the first prompt with the answers that
    are left; with no answer left [input] raises and nothing is returned. *)
Fixpoint get_user_input (int : string -> option Z) (answers : list string)
    : option (Z * Z * Z) :=
  match answers with
  | [] => None
  | a1 :: rest1 =>
      match int a1 with
      | None => get_user_input int rest1
      | Some fsize =>
          match rest1 with
          | [] => None
          | a2 :: rest2 =>
              match int a2 with
              | None => get_user_input int rest2
              | Some tcp_c =>
                  match rest2 with
                  | [] => None
                  | a3 :: rest3 =>
                      match int a3 with
                      | None => get_user_input int rest3
                      | Some udp_c =>
                          if (fsize <=? 0) || (tcp_c <? 0) || (udp_c <? 0)
                          then get_user_input int rest3
                          else Some (fsize, tcp_c, udp_c)
                      end
                  end
              end
          end
      end
  end.

(** *** [start_speed_test] *)

Inductive job :=
| TcpJob (idx : Z)     (* [handle_tcp_transfer(..., i+1)] *)
| UdpJob (idx : Z).    (* [handle_udp_transfer(..., i+1)] *)

(** The threads started, in the order of the [threads] list. *)
Definition start_speed_test (tcp_count udp_count : Z) : list job :=
  map (fun i => TcpJob (i + 1)) (range tcp_count)
  ++ map (fun i => UdpJob (i + 1)) (range udp_count).

(** *** The request of [handle_tcp_transfer] *)

(** [str(file_size).encode() + b"\n"]; [str_bytes] is the decimal text of
    an integer, encoded. *)
Definition tcp_request (str_bytes : Z -> list byte) (file_size : Z)
    : list byte :=
  str_bytes file_size ++ [x0a].

End Client.

(** ** An instance of the built-ins for ASCII requests *)

Module Builtins.
Import Bytes.

(** [bytes.decode] on ASCII text; a byte above 127 is refused here. *)
Definition decode (data : list byte) : option string :=
  if forallb (fun b => Z_of_byte b <? 128) data
  then Some (string_of_list_byte data)
  else None.

Definition digit (a : ascii) : option Z :=
  let n := Z.of_nat (nat_of_ascii a) in
  if (48 <=? n) && (n <=? 57) then Some (n - 48) else None.

Fixpoint digits (s : string) (acc : Z) : option Z :=
  match s with
  | EmptyString => Some acc
  | String a s' =>
      match digit a with
      | Some d => digits s' (acc * 10 + d)
      | None => None
      end
  end.

Definition unsigned (s : string) : option Z :=
  match s with
  | EmptyString => None
  | _ => digits s 0
  end.

(** [int] on an optional sign followed by decimal digits. *)
Definition int (s : string) : option Z :=
  match s with
  | String "-"%char s' => option_map Z.opp (unsigned s')
  | String "+"%char s' => unsigned s'
  | _ => unsigned s
  end.

(** The outcomes of [recv(1)] for a peer that sends [text] and goes on
    waiting. *)
Definition sends (text : string) : list Net.recv_event :=
  map (fun b => Net.Chunk [b]) (list_byte_of_string text).

End Builtins.

(** ** Notions used to state the properties *)

Module Spec.
Import Bytes Struct Constants PyFloat.

(** The ceiling of [a / b] for a positive [b]. *)
Definition ceil_div (a b : Z) : Z := - ((- a) / b).

Definition sumZ (l : list Z) : Z := fold_right Z.add 0 l.

(** The number of data bytes of a payload datagram, as the receiver counts
    them: what follows the 21 bytes of the header. *)
Definition payload_len (datagram : list byte) : Z := len (skipn 21 datagram).

(** The magic cookie a datagram declares: its first four bytes, if it has
    that many. *)
Definition cookie_field (data : list byte) : option Z :=
  if (length data <? 4)%nat then None else Some (be_value (firstn 4 data)).

(** The datagram the server's segmenter builds in iteration [i]: the packed
    header followed by the filler bytes. *)
Definition segment (file_size total i : Z) : list byte :=
  (be_bytes 4 MAGIC_COOKIE ++ be_bytes 1 MSG_TYPE_PAYLOAD
     ++ be_bytes 8 total ++ be_bytes 8 (i + 1))
    ++ repeat_byte "Y" (Server.data_this_segment file_size i).

(** The outcomes of [recv(1)] for bytes arriving one at a time. *)
Definition one_by_one (bs : list byte) : list Net.recv_event :=
  map (fun b => Net.Chunk [b]) bs.

(** The request text does not parse: decoding fails, or [int] does. *)
Definition unparsable (decode : list byte -> option string)
    (int : string -> option Z) (data : list byte) : Prop :=
  match decode (Server.strip data) with
  | None => True
  | Some size_str => int size_str = None
  end.

(** The binary64 value of [m * 2^e], for clock readings in examples. *)
Definition dyadic (m e : Z) : float := binary_normalize prec emax m e false.

(** A datagram the client's receive loop counts as a payload segment: at
    least 21 bytes, with the payload cookie and type in its header. *)
Definition is_payload_segment (data : list byte) : bool :=
  (21 <=? length data)%nat
  && (be_value (firstn 4 data) =? MAGIC_COOKIE)
  && (be_value (firstn 1 (skipn 4 data)) =? MSG_TYPE_PAYLOAD).

(** The number of segments a payload datagram declares: the eight bytes
    after its cookie and type. *)
Definition declared_total (data : list byte) : Z :=
  be_value (firstn 8 (skipn 1 (skipn 4 (firstn 21 data)))).

(** The payload segments of a trace, each with the clock of its receipt. *)
Definition payload_arrivals (trace : list (float * Net.recvfrom_event))
    : list (float * list byte) :=
  flat_map (fun e => match snd e with
                     | Net.Datagram data _ =>
                         if is_payload_segment data then [(fst e, data)] else []
                     | _ => []
                     end) trace.

(** What one payload segment does to the state of the receive loop. *)
Definition absorb (st : Client.udp_state) (arrival : float * list byte)
    : Client.udp_state :=
  {| Client.total_bytes := Client.total_bytes st + payload_len (snd arrival);
     Client.total_segments := declared_total (snd arrival);
     Client.segments_received := Client.segments_received st + 1;
     Client.last_data_time := fst arrival |}.

(** [st'] is [st] with the payload segments of [trace] counted. *)
Definition counted (st st' : Client.udp_state)
    (trace : list (float * Net.recvfrom_event)) : Prop :=
  let arrivals := payload_arrivals trace in
  Client.segments_received st'
    = Client.segments_received st + Z.of_nat (length arrivals) /\
  Client.total_bytes st'
    = Client.total_bytes st
      + sumZ (map (fun a => payload_len (snd a)) arrivals) /\
  (arrivals = [] ->
   Client.total_segments st' = Client.total_segments st /\
   Client.last_data_time st' = Client.last_data_time st) /\
  (forall before a, arrivals = before ++ [a] ->
   Client.total_segments st' = declared_total (snd a) /\
   Client.last_data_time st' = fst a).

End Spec.

(** ** Codec lemmas *)

Module BytesFacts.
Import Bytes.

Lemma Z_of_byte_range (b : byte) : 0 <= Z_of_byte b < 256.
Proof.
  unfold Z_of_byte. pose proof (Byte.to_N_bounded b). lia.
Qed.

Lemma Z_of_byte_of_Z (z : Z) : Z_of_byte (byte_of_Z z) = z mod 256.
Proof.
  unfold Z_of_byte, byte_of_Z.
  pose proof (Z.mod_pos_bound z 256 eq_refl) as Hm.
  destruct (Byte.of_N (Z.to_N (z mod 256))) as [b|] eqn:E.
  - apply Byte.to_of_N in E. rewrite E. lia.
  - apply Byte.of_N_None_iff in E. lia.
Qed.

Lemma byte_of_Z_of_byte (b : byte) : byte_of_Z (Z_of_byte b) = b.
Proof.
  unfold byte_of_Z.
  rewrite Z.mod_small by apply Z_of_byte_range.
  unfold Z_of_byte. rewrite N2Z.id, Byte.of_to_N. reflexivity.
Qed.

Lemma length_be_bytes (n : nat) (v : Z) : length (be_bytes n v) = n.
Proof. induction n; simpl; congruence. Qed.

Lemma fold_be_value_app (bs1 bs2 : list byte) (acc : Z) :
  fold_left (fun a b => a * 256 + Z_of_byte b) (bs1 ++ bs2) acc =
  fold_left (fun a b => a * 256 + Z_of_byte b) bs2
    (fold_left (fun a b => a * 256 + Z_of_byte b) bs1 acc).
Proof. apply fold_left_app. Qed.

Lemma fold_be_bytes (n : nat) (v acc : Z) :
  fold_left (fun a b => a * 256 + Z_of_byte b) (be_bytes n v) acc =
  acc * 2 ^ (8 * Z.of_nat n) + v mod 2 ^ (8 * Z.of_nat n).
Proof.
  revert acc. induction n as [|k IH]; intros acc.
  - simpl. rewrite Z.mod_1_r. lia.
  - cbn [be_bytes fold_left]. rewrite IH, Z_of_byte_of_Z.
    replace (8 * Z.of_nat (S k)) with (8 * Z.of_nat k + 8) by lia.
    rewrite Z.pow_add_r by lia.
    change (2 ^ 8) with 256.
    assert (Hp : 0 < 2 ^ (8 * Z.of_nat k)) by (apply Z.pow_pos_nonneg; lia).
    rewrite (Z.rem_mul_r v (2 ^ (8 * Z.of_nat k)) 256) by lia.
    lia.
Qed.

Lemma be_value_be_bytes (n : nat) (v : Z) :
  0 <= v < 2 ^ (8 * Z.of_nat n) -> be_value (be_bytes n v) = v.
Proof.
  intros Hv. unfold be_value. rewrite fold_be_bytes.
  rewrite Z.mod_small by assumption. lia.
Qed.

Lemma fold_be_value_bound (bs : list byte) (acc : Z) :
  0 <= acc ->
  acc * 2 ^ (8 * Z.of_nat (length bs)) <=
    fold_left (fun a b => a * 256 + Z_of_byte b) bs acc
    < (acc + 1) * 2 ^ (8 * Z.of_nat (length bs)).
Proof.
  revert acc. induction bs as [|b bs IH]; intros acc Hacc.
  - simpl. lia.
  - cbn [fold_left length].
    pose proof (Z_of_byte_range b) as Hb.
    specialize (IH (acc * 256 + Z_of_byte b) ltac:(lia)).
    replace (8 * Z.of_nat (S (length bs)))
      with (8 * Z.of_nat (length bs) + 8) by lia.
    rewrite Z.pow_add_r by lia. change (2 ^ 8) with 256.
    assert (Hp : 0 < 2 ^ (8 * Z.of_nat (length bs)))
      by (apply Z.pow_pos_nonneg; lia).
    nia.
Qed.

Lemma be_value_range (bs : list byte) :
  0 <= be_value bs < 2 ^ (8 * Z.of_nat (length bs)).
Proof.
  unfold be_value.
  pose proof (fold_be_value_bound bs 0 ltac:(lia)). lia.
Qed.

End BytesFacts.

Module StructFacts.
Import Bytes Struct Constants BytesFacts.

Lemma in_range_bounds (c : code) (v : Z) :
  in_range c v = true <-> 0 <= v < 2 ^ (8 * Z.of_nat (code_size c)).
Proof.
  unfold in_range. rewrite andb_true_iff, Z.leb_le, Z.ltb_lt. tauto.
Qed.

(** What [struct.pack] builds can be taken apart field by field. *)
Lemma pack_codes_sound (cs : list code) :
  forall vs bs,
    pack_codes cs vs = Some bs ->
    length bs = codes_size cs /\ split_fields cs bs = vs.
Proof.
  induction cs as [|c cs IH]; intros [|v vs] bs Hp; simpl in Hp;
    try discriminate.
  - inversion Hp; subst. split; reflexivity.
  - destruct (in_range c v) eqn:Hr; [|discriminate].
    destruct (pack_codes cs vs) as [tl|] eqn:Htl; [|discriminate].
    inversion Hp; subst bs; clear Hp.
    destruct (IH vs tl Htl) as [Hlen Hsplit].
    apply in_range_bounds in Hr.
    pose proof (length_be_bytes (code_size c) v) as Hl.
    split.
    + rewrite length_app, Hl, Hlen. reflexivity.
    + cbn [split_fields].
      rewrite firstn_app, skipn_app, Hl, Nat.sub_diag.
      rewrite <- Hl at 1. rewrite firstn_all.
      rewrite <- Hl at 2. rewrite skipn_all.
      cbn [firstn skipn app]. rewrite app_nil_r.
      rewrite be_value_be_bytes by assumption.
      rewrite Hsplit. reflexivity.
Qed.

Lemma unpack_pack (fmt : string) (vs : list Z) (bs : list byte) :
  pack fmt vs = Some bs -> unpack fmt bs = Some vs.
Proof.
  unfold pack, unpack.
  destruct (parse_format fmt) as [cs|]; [|discriminate].
  intros Hp. destruct (pack_codes_sound cs vs bs Hp) as [Hlen Hsplit].
  rewrite Hlen, Nat.eqb_refl, Hsplit. reflexivity.
Qed.

Lemma pack_length (fmt : string) (vs : list Z) (bs : list byte) :
  pack fmt vs = Some bs -> calcsize fmt = Some (length bs).
Proof.
  unfold pack, calcsize.
  destruct (parse_format fmt) as [cs|]; [|discriminate].
  intros Hp. destruct (pack_codes_sound cs vs bs Hp) as [Hlen _].
  simpl. congruence.
Qed.

Lemma offer_format :
  parse_format OFFER_STRUCT_FORMAT = Some [code_L; code_B; code_H; code_H].
Proof. reflexivity. Qed.

Lemma request_format :
  parse_format REQUEST_STRUCT_FORMAT = Some [code_L; code_B; code_Q].
Proof. reflexivity. Qed.

Lemma payload_format :
  parse_format PAYLOAD_STRUCT_FORMAT = Some [code_L; code_B; code_Q; code_Q].
Proof. reflexivity. Qed.

Lemma calcsize_offer : calcsize OFFER_STRUCT_FORMAT = Some 9%nat.
Proof. reflexivity. Qed.

Lemma calcsize_request : calcsize REQUEST_STRUCT_FORMAT = Some 13%nat.
Proof. reflexivity. Qed.

Lemma calcsize_payload : calcsize PAYLOAD_STRUCT_FORMAT = Some 21%nat.
Proof. reflexivity. Qed.

Lemma pack_offer (mc mt udp tcp : Z) :
  0 <= mc < 2 ^ 32 -> 0 <= mt < 2 ^ 8 ->
  0 <= udp < 2 ^ 16 -> 0 <= tcp < 2 ^ 16 ->
  pack OFFER_STRUCT_FORMAT [mc; mt; udp; tcp] =
  Some (be_bytes 4 mc ++ be_bytes 1 mt ++ be_bytes 2 udp ++ be_bytes 2 tcp ++ []).
Proof.
  intros Hmc Hmt Hu Ht. unfold pack. rewrite offer_format.
  cbn [pack_codes].
  rewrite (proj2 (in_range_bounds code_L mc)) by (simpl; lia).
  rewrite (proj2 (in_range_bounds code_B mt)) by (simpl; lia).
  rewrite (proj2 (in_range_bounds code_H udp)) by (simpl; lia).
  rewrite (proj2 (in_range_bounds code_H tcp)) by (simpl; lia).
  reflexivity.
Qed.

Lemma pack_request (mc mt fs : Z) :
  0 <= mc < 2 ^ 32 -> 0 <= mt < 2 ^ 8 -> 0 <= fs < 2 ^ 64 ->
  pack REQUEST_STRUCT_FORMAT [mc; mt; fs] =
  Some (be_bytes 4 mc ++ be_bytes 1 mt ++ be_bytes 8 fs ++ []).
Proof.
  intros Hmc Hmt Hfs. unfold pack. rewrite request_format.
  cbn [pack_codes].
  rewrite (proj2 (in_range_bounds code_L mc)) by (simpl; lia).
  rewrite (proj2 (in_range_bounds code_B mt)) by (simpl; lia).
  rewrite (proj2 (in_range_bounds code_Q fs)) by (simpl; lia).
  reflexivity.
Qed.

Lemma pack_payload (mc mt total cur : Z) :
  0 <= mc < 2 ^ 32 -> 0 <= mt < 2 ^ 8 ->
  0 <= total < 2 ^ 64 -> 0 <= cur < 2 ^ 64 ->
  pack PAYLOAD_STRUCT_FORMAT [mc; mt; total; cur] =
  Some (be_bytes 4 mc ++ be_bytes 1 mt ++ be_bytes 8 total ++ be_bytes 8 cur ++ []).
Proof.
  intros Hmc Hmt Ht Hc. unfold pack. rewrite payload_format.
  cbn [pack_codes].
  rewrite (proj2 (in_range_bounds code_L mc)) by (simpl; lia).
  rewrite (proj2 (in_range_bounds code_B mt)) by (simpl; lia).
  rewrite (proj2 (in_range_bounds code_Q total)) by (simpl; lia).
  rewrite (proj2 (in_range_bounds code_Q cur)) by (simpl; lia).
  reflexivity.
Qed.

End StructFacts.

(** ** The wire format *)

Module WireFormat.
Import Bytes Struct Constants BytesFacts StructFacts.

Lemma firstn_header (h data : list byte) (n : nat) :
  length h = n -> firstn n (h ++ data) = h.
Proof.
  intros <-. rewrite firstn_app, Nat.sub_diag, firstn_all. simpl.
  apply app_nil_r.
Qed.

Lemma skipn_header (h data : list byte) (n : nat) :
  length h = n -> skipn n (h ++ data) = data.
Proof.
  intros <-. rewrite skipn_app, Nat.sub_diag, skipn_all. reflexivity.
Qed.

Lemma packed_size (fmt : string) (vs : list Z) (bs : list byte) (n : nat) :
  calcsize fmt = Some n -> pack fmt vs = Some bs -> length bs = n.
Proof.
  intros Hc Hp. apply pack_length in Hp. congruence.
Qed.

(** C4. Packing the fields of an Offer, a Request or a PayloadSegment header
    gives the big-endian layout of 9, 13 and 21 bytes, and unpacking these
    bytes (for a segment: the first 21 bytes of header plus data, as the
    receiver does) gives the fields back; the data after a segment header is
    returned unchanged. *)
Theorem wire_roundtrip (mc mt udp tcp fs total cur : Z) (data : list byte) :
  0 <= mc < 2 ^ 32 -> 0 <= mt < 2 ^ 8 ->
  0 <= udp < 2 ^ 16 -> 0 <= tcp < 2 ^ 16 ->
  0 <= fs < 2 ^ 64 -> 0 <= total < 2 ^ 64 -> 0 <= cur < 2 ^ 64 ->
  (exists b,
      pack OFFER_STRUCT_FORMAT [mc; mt; udp; tcp] = Some b /\
      b = be_bytes 4 mc ++ be_bytes 1 mt ++ be_bytes 2 udp ++ be_bytes 2 tcp /\
      length b = 9%nat /\
      unpack OFFER_STRUCT_FORMAT b = Some [mc; mt; udp; tcp]) /\
  (exists b,
      pack REQUEST_STRUCT_FORMAT [mc; mt; fs] = Some b /\
      b = be_bytes 4 mc ++ be_bytes 1 mt ++ be_bytes 8 fs /\
      length b = 13%nat /\
      unpack REQUEST_STRUCT_FORMAT b = Some [mc; mt; fs]) /\
  (exists h,
      pack PAYLOAD_STRUCT_FORMAT [mc; mt; total; cur] = Some h /\
      h = be_bytes 4 mc ++ be_bytes 1 mt ++ be_bytes 8 total ++ be_bytes 8 cur /\
      length h = 21%nat /\
      unpack PAYLOAD_STRUCT_FORMAT (firstn 21 (h ++ data))
        = Some [mc; mt; total; cur] /\
      skipn 21 (h ++ data) = data).
Proof.
  intros Hmc Hmt Hu Ht Hfs Htot Hcur.
  pose proof (pack_offer mc mt udp tcp Hmc Hmt Hu Ht) as Ho.
  pose proof (pack_request mc mt fs Hmc Hmt Hfs) as Hr.
  pose proof (pack_payload mc mt total cur Hmc Hmt Htot Hcur) as Hp.
  rewrite app_nil_r in Ho, Hr, Hp.
  repeat split.
  - eexists. split; [exact Ho|]. split; [reflexivity|].
    split; [exact (packed_size _ _ _ _ calcsize_offer Ho)|].
    apply unpack_pack, Ho.
  - eexists. split; [exact Hr|]. split; [reflexivity|].
    split; [exact (packed_size _ _ _ _ calcsize_request Hr)|].
    apply unpack_pack, Hr.
  - pose proof (packed_size _ _ _ _ calcsize_payload Hp) as Hlen.
    eexists. split; [exact Hp|]. split; [reflexivity|].
    split; [exact Hlen|].
    split.
    + rewrite (firstn_header _ data 21 Hlen). apply unpack_pack, Hp.
    + apply (skipn_header _ data 21 Hlen).
Qed.

Lemma wire_roundtrip_witness :
  (exists b,
      pack OFFER_STRUCT_FORMAT [MAGIC_COOKIE; MSG_TYPE_OFFER; 50000; 50001]
        = Some b /\
      b = be_bytes 4 MAGIC_COOKIE ++ be_bytes 1 MSG_TYPE_OFFER
            ++ be_bytes 2 50000 ++ be_bytes 2 50001 /\
      length b = 9%nat /\
      unpack OFFER_STRUCT_FORMAT b
        = Some [MAGIC_COOKIE; MSG_TYPE_OFFER; 50000; 50001]) /\
  (exists b,
      pack REQUEST_STRUCT_FORMAT [MAGIC_COOKIE; MSG_TYPE_OFFER; 2500] = Some b /\
      b = be_bytes 4 MAGIC_COOKIE ++ be_bytes 1 MSG_TYPE_OFFER
            ++ be_bytes 8 2500 /\
      length b = 13%nat /\
      unpack REQUEST_STRUCT_FORMAT b
        = Some [MAGIC_COOKIE; MSG_TYPE_OFFER; 2500]) /\
  (exists h,
      pack PAYLOAD_STRUCT_FORMAT [MAGIC_COOKIE; MSG_TYPE_OFFER; 3; 2] = Some h /\
      h = be_bytes 4 MAGIC_COOKIE ++ be_bytes 1 MSG_TYPE_OFFER
            ++ be_bytes 8 3 ++ be_bytes 8 2 /\
      length h = 21%nat /\
      unpack PAYLOAD_STRUCT_FORMAT (firstn 21 (h ++ [x59; x59]))
        = Some [MAGIC_COOKIE; MSG_TYPE_OFFER; 3; 2] /\
      skipn 21 (h ++ [x59; x59]) = [x59; x59]).
Proof.
  apply (wire_roundtrip MAGIC_COOKIE MSG_TYPE_OFFER 50000 50001 2500 3 2
           [x59; x59]);
    unfold MAGIC_COOKIE, MSG_TYPE_OFFER; lia.
Defined.

End WireFormat.

(** ** The server's UDP segmenter *)

Module Segmenter.
Import Bytes Struct Constants Net Spec BytesFacts StructFacts WireFormat.
Import Server.

Lemma range_length (n : Z) : length (range n) = Z.to_nat n.
Proof. unfold range. rewrite length_map, length_seq. reflexivity. Qed.

Lemma range_snoc (n : Z) : 0 <= n -> range (n + 1) = range n ++ [n].
Proof.
  intros Hn. unfold range.
  replace (Z.to_nat (n + 1)) with (S (Z.to_nat n)) by lia.
  rewrite seq_S, map_app. simpl. rewrite Z2Nat.id by lia. reflexivity.
Qed.

Lemma in_range_iff (n i : Z) : In i (range n) <-> 0 <= i < n.
Proof.
  unfold range. rewrite in_map_iff. split.
  - intros [k [<- Hk]]. apply in_seq in Hk. lia.
  - intros Hi. exists (Z.to_nat i). split; [lia|]. apply in_seq. lia.
Qed.

Lemma nth_error_range (n i : Z) :
  0 <= i < n -> nth_error (range n) (Z.to_nat i) = Some i.
Proof.
  intros Hi. unfold range.
  rewrite nth_error_map, nth_error_seq.
  destruct (Nat.ltb_spec (Z.to_nat i) (Z.to_nat n)); [|lia].
  simpl. f_equal. lia.
Qed.

Lemma sumZ_cons (x : Z) (l : list Z) : sumZ (x :: l) = x + sumZ l.
Proof. reflexivity. Qed.

Lemma sumZ_app (l1 l2 : list Z) : sumZ (l1 ++ l2) = sumZ l1 + sumZ l2.
Proof. induction l1 as [|x l1 IH]; simpl; lia. Qed.

Lemma total_segments_ceil (file_size : Z) :
  total_segments file_size = ceil_div file_size UDP_PAYLOAD_SIZE.
Proof.
  unfold total_segments, ceil_div, UDP_PAYLOAD_SIZE.
  destruct (Z.eqb_spec (file_size mod 1024) 0) as [E|E];
    Z.to_euclidean_division_equations; lia.
Qed.

Lemma total_segments_bounds (file_size : Z) :
  0 < file_size ->
  let total := total_segments file_size in
  (total - 1) * UDP_PAYLOAD_SIZE < file_size <= total * UDP_PAYLOAD_SIZE
  /\ 0 < total <= file_size.
Proof.
  intros Hfs. unfold total_segments, UDP_PAYLOAD_SIZE. cbv zeta.
  destruct (Z.eqb_spec (file_size mod 1024) 0) as [E|E];
    Z.to_euclidean_division_equations; lia.
Qed.

Lemma payload_header_ok (total cur : Z) :
  0 <= total < 2 ^ 64 -> 0 <= cur < 2 ^ 64 ->
  payload_header total cur =
  Some (be_bytes 4 MAGIC_COOKIE ++ be_bytes 1 MSG_TYPE_PAYLOAD
          ++ be_bytes 8 total ++ be_bytes 8 cur).
Proof.
  intros Ht Hc. unfold payload_header.
  rewrite pack_payload; try assumption;
    [rewrite app_nil_r; reflexivity | | ];
    unfold MAGIC_COOKIE, MSG_TYPE_PAYLOAD; lia.
Qed.

Lemma payload_header_length (total cur : Z) (h : list byte) :
  payload_header total cur = Some h -> length h = 21%nat.
Proof. apply (packed_size _ _ _ _ calcsize_payload). Qed.

Lemma send_segments_ok (sendto_ok : Z -> bool) (file_size total : Z)
    (indices : list Z) :
  0 <= total < 2 ^ 64 ->
  (forall i, In i indices -> 0 <= i < total) ->
  (forall i, sendto_ok i = true) ->
  send_segments sendto_ok file_size total indices =
  (map (segment file_size total) indices, Completed).
Proof.
  intros Ht Hin Hok.
  induction indices as [|i rest IH]; [reflexivity|].
  cbn [send_segments map].
  assert (Hi : 0 <= i < total) by (apply Hin; left; reflexivity).
  rewrite payload_header_ok by lia.
  rewrite Hok, IH by (intros j Hj; apply Hin; right; exact Hj).
  reflexivity.
Qed.

Lemma payload_len_segment (file_size total i : Z) :
  payload_len (segment file_size total i)
  = Z.max 0 (data_this_segment file_size i).
Proof.
  unfold payload_len, segment.
  rewrite skipn_header.
  - unfold len, repeat_byte. rewrite repeat_length. lia.
  - rewrite !length_app, !length_be_bytes. reflexivity.
Qed.

Lemma data_this_segment_full (file_size i : Z) :
  (i + 1) * UDP_PAYLOAD_SIZE <= file_size ->
  data_this_segment file_size i = UDP_PAYLOAD_SIZE.
Proof. unfold data_this_segment, UDP_PAYLOAD_SIZE. lia. Qed.

Lemma sum_full_segments (file_size : Z) (k : nat) :
  Z.of_nat k * UDP_PAYLOAD_SIZE <= file_size ->
  sumZ (map (fun i => Z.max 0 (data_this_segment file_size i))
          (range (Z.of_nat k)))
  = Z.of_nat k * UDP_PAYLOAD_SIZE.
Proof.
  induction k as [|k IH]; intros Hk; [reflexivity|].
  replace (Z.of_nat (S k)) with (Z.of_nat k + 1) in * by lia.
  rewrite range_snoc, map_app, sumZ_app by lia.
  rewrite IH by (unfold UDP_PAYLOAD_SIZE in *; lia).
  simpl. rewrite data_this_segment_full by assumption.
  unfold UDP_PAYLOAD_SIZE. lia.
Qed.

Lemma sum_segments (file_size : Z) :
  0 < file_size ->
  sumZ (map (fun i => Z.max 0 (data_this_segment file_size i))
          (range (total_segments file_size)))
  = file_size.
Proof.
  intros Hfs.
  pose proof (total_segments_bounds file_size Hfs) as [Hb Ht]. cbv zeta in *.
  set (total := total_segments file_size) in *.
  replace total with (total - 1 + 1) by lia.
  rewrite range_snoc, map_app, sumZ_app by lia.
  replace (total - 1) with (Z.of_nat (Z.to_nat (total - 1))) at 1 by lia.
  rewrite sum_full_segments by (unfold UDP_PAYLOAD_SIZE in *; lia).
  simpl. unfold data_this_segment, UDP_PAYLOAD_SIZE in *. lia.
Qed.

(** C1. For a requested size between 1 and 2^64 - 1 (the range of the
    request's size field) and the chunk size 1024, when every send succeeds:
    the number of segments is the ceiling of [file_size / 1024]; that many
    datagrams are sent; segment [i] (from 1) is the header for
    [(total, i)] followed by [min(1024, file_size - (i-1)*1024)] filler
    bytes; the payload lengths add up to [file_size]; and the last payload
    has [file_size - (total-1)*1024] bytes, which is the remainder of
    [file_size] by 1024, or 1024 when that remainder is 0. *)
Theorem udp_segmenter_correct (sendto_ok : Z -> bool) (file_size : Z) :
  0 < file_size < 2 ^ 64 ->
  (forall i, sendto_ok i = true) ->
  let chunk := UDP_PAYLOAD_SIZE in
  let total := total_segments file_size in
  chunk = 1024 /\
  total = ceil_div file_size chunk /\
  exists segs,
    handle_udp_transfer sendto_ok file_size = (segs, Completed) /\
    Z.of_nat (length segs) = total /\
    (forall i, 1 <= i <= total ->
       exists header,
         payload_header total i = Some header /\
         length header = 21%nat /\
         nth_error segs (Z.to_nat (i - 1)) =
           Some (header
                   ++ repeat_byte "Y" (Z.min chunk (file_size - (i - 1) * chunk)))
         /\ payload_len
              (header
                 ++ repeat_byte "Y" (Z.min chunk (file_size - (i - 1) * chunk)))
            = Z.min chunk (file_size - (i - 1) * chunk)) /\
    sumZ (map payload_len segs) = file_size /\
    payload_len (last segs []) = file_size - (total - 1) * chunk /\
    payload_len (last segs []) =
      (if file_size mod chunk =? 0 then chunk else file_size mod chunk).
Proof.
  intros Hfs Hok. cbv zeta.
  pose proof (total_segments_bounds file_size (proj1 Hfs)) as [Hb Ht].
  cbv zeta in Hb, Ht.
  set (total := total_segments file_size) in *.
  split; [reflexivity|].
  split; [apply total_segments_ceil|].
  exists (map (segment file_size total) (range total)).
  assert (Hrun : handle_udp_transfer sendto_ok file_size =
                 (map (segment file_size total) (range total), Completed)).
  { unfold handle_udp_transfer. fold total.
    apply send_segments_ok; [lia | | assumption].
    intros i Hi. apply in_range_iff in Hi. exact Hi. }
  assert (Hlast : last (map (segment file_size total) (range total)) [] =
                  segment file_size total (total - 1)).
  { replace total with (total - 1 + 1) at 2 by lia.
    rewrite range_snoc, map_app by lia. simpl. apply last_last. }
  split; [exact Hrun|].
  split; [rewrite length_map, range_length; lia|].
  split; [|split; [|split]].
  - intros i Hi.
    assert (Hh := payload_header_ok total i ltac:(lia) ltac:(lia)).
    eexists. split; [exact Hh|].
    split; [exact (payload_header_length _ _ _ Hh)|].
    split.
    + rewrite nth_error_map, nth_error_range by lia. simpl.
      unfold segment, data_this_segment.
      replace (i - 1 + 1) with i by lia. reflexivity.
    + pose proof (payload_len_segment file_size total (i - 1)) as Hl.
      unfold segment, data_this_segment in Hl.
      replace (i - 1 + 1) with i in Hl by lia.
      rewrite Hl. unfold UDP_PAYLOAD_SIZE in *. lia.
  - rewrite map_map.
    rewrite (map_ext _ _ (payload_len_segment file_size total)).
    apply sum_segments. lia.
  - rewrite Hlast, payload_len_segment.
    unfold data_this_segment, UDP_PAYLOAD_SIZE in *. lia.
  - rewrite Hlast, payload_len_segment.
    unfold data_this_segment, UDP_PAYLOAD_SIZE in *.
    subst total. unfold total_segments, UDP_PAYLOAD_SIZE in *.
    destruct (Z.eqb_spec (file_size mod 1024) 0) as [E|E];
      Z.to_euclidean_division_equations; lia.
Qed.

Lemma udp_segmenter_correct_witness :
  let chunk := UDP_PAYLOAD_SIZE in
  let total := total_segments 2500 in
  chunk = 1024 /\
  total = ceil_div 2500 chunk /\
  exists segs,
    handle_udp_transfer (fun _ => true) 2500 = (segs, Completed) /\
    Z.of_nat (length segs) = total /\
    (forall i, 1 <= i <= total ->
       exists header,
         payload_header total i = Some header /\
         length header = 21%nat /\
         nth_error segs (Z.to_nat (i - 1)) =
           Some (header
                   ++ repeat_byte "Y" (Z.min chunk (2500 - (i - 1) * chunk)))
         /\ payload_len
              (header
                 ++ repeat_byte "Y" (Z.min chunk (2500 - (i - 1) * chunk)))
            = Z.min chunk (2500 - (i - 1) * chunk)) /\
    sumZ (map payload_len segs) = 2500 /\
    payload_len (last segs []) = 2500 - (total - 1) * chunk /\
    payload_len (last segs []) =
      (if 2500 mod chunk =? 0 then chunk else 2500 mod chunk).
Proof.
  apply (udp_segmenter_correct (fun _ => true) 2500); [lia | reflexivity].
Defined.

(** Scenario B of the specification: 2500 bytes go out as three segments of
    1024, 1024 and 452 data bytes. *)
Example segments_of_2500 :
  map payload_len (fst (handle_udp_transfer (fun _ => true) 2500))
  = [1024; 1024; 452].
Proof. vm_compute. reflexivity. Qed.

End Segmenter.

(** ** The server's TCP path *)

Module TcpServer.
Import Bytes Struct Constants Net Spec BytesFacts Segmenter.
Import Server.

Lemma send_loop_eq (ok : nat -> bool) (size sent : Z) (k : nat) :
  send_loop ok size sent k =
  if sent <? size then
    if ok k then
      let r := send_loop ok size (sent + Z.min chunk_size (size - sent)) (S k) in
      (repeat_byte "X" (Z.min chunk_size (size - sent)) :: fst r, snd r)
    else ([], SendError)
  else ([], SendDone).
Proof.
  rewrite send_loop_equation_1.
  destruct (Z_lt_dec sent size) as [H|H]; simpl.
  - destruct (Z.ltb_spec sent size); [reflexivity|lia].
  - destruct (Z.ltb_spec sent size); [lia|reflexivity].
Qed.

Lemma len_repeat_byte (b : byte) (n : Z) : len (repeat_byte b n) = Z.max 0 n.
Proof. unfold len, repeat_byte. rewrite repeat_length. lia. Qed.

(** What the loop has done when it is entered with [sent] bytes already
    sent and [k] calls of [sendall] already made. *)
Record loop_facts (ok : nat -> bool) (size sent : Z) (k : nat)
    (r : list (list byte) * send_status) : Prop := {
  lf_chunks : forall j w,
    nth_error (fst r) j = Some w ->
    w = repeat_byte "X" (Z.min chunk_size (size - (sent + chunk_size * Z.of_nat j)))
    /\ sent + chunk_size * Z.of_nat j < size;
  lf_done : snd r = SendDone -> sumZ (map len (fst r)) = Z.max 0 (size - sent);
  lf_error : snd r = SendError ->
    ok (k + length (fst r))%nat = false
    /\ sent + sumZ (map len (fst r)) < size;
  lf_before : forall j, (j < length (fst r))%nat -> ok (k + j)%nat = true;
  lf_no_error : (forall j, ok j = true) -> snd r = SendDone
}.

Lemma send_loop_facts (ok : nat -> bool) (size : Z) (n : nat) :
  forall sent k,
    (Z.to_nat (size - sent) <= n)%nat ->
    loop_facts ok size sent k (send_loop ok size sent k).
Proof.
  induction n as [|n IH]; intros sent k Hn; rewrite send_loop_eq.
  - destruct (Z.ltb_spec sent size); [lia|].
    constructor; cbn [fst snd length map].
    + intros [|j] w; discriminate.
    + intros _. simpl. lia.
    + discriminate.
    + intros j Hj. inversion Hj.
    + reflexivity.
  - destruct (Z.ltb_spec sent size) as [Hlt|Hge].
    + destruct (ok k) eqn:Hk.
      * cbv zeta.
        set (to_send := Z.min chunk_size (size - sent)).
        assert (Hts : 0 < to_send <= chunk_size /\ sent + to_send <= size)
          by (unfold to_send, chunk_size; lia).
        specialize (IH (sent + to_send) (S k) ltac:(lia)).
        destruct IH as [Hc Hd He Hb Hne].
        destruct (send_loop ok size (sent + to_send) (S k)) as [ws st].
        cbn [fst snd] in *.
        constructor; cbn [fst snd length map]; rewrite ?sumZ_cons.
        -- intros [|j] w Hw; simpl in Hw.
           ++ inversion Hw; subst w. split; [|lia].
              unfold to_send. do 2 f_equal. lia.
           ++ destruct (Hc j w Hw) as [Hw1 Hw2].
              assert (to_send = chunk_size)
                by (unfold to_send, chunk_size in *; lia).
              split; [|lia].
              rewrite Hw1. do 2 f_equal. lia.
        -- intros Hst. rewrite (Hd Hst), len_repeat_byte. lia.
        -- intros Hst. destruct (He Hst) as [He1 He2].
           rewrite len_repeat_byte. split; [|lia].
           rewrite <- He1. f_equal. lia.
        -- intros [|j] Hj.
           ++ rewrite Nat.add_0_r. exact Hk.
           ++ rewrite <- (Hb j) by lia. f_equal. lia.
        -- exact Hne.
      * constructor; cbn [fst snd length map].
        -- intros [|j] w; discriminate.
        -- discriminate.
        -- intros _. rewrite Nat.add_0_r. split; [exact Hk | simpl; lia].
        -- intros j Hj. inversion Hj.
        -- intros Hall. rewrite Hall in Hk. discriminate.
    + constructor; cbn [fst snd length map].
      * intros [|j] w; discriminate.
      * intros _. simpl. lia.
      * discriminate.
      * intros j Hj. inversion Hj.
      * reflexivity.
Qed.

Lemma send_tcp_data_facts (ok : nat -> bool) (size : Z) :
  loop_facts ok size 0 0 (send_tcp_data ok size).
Proof.
  unfold send_tcp_data. apply (send_loop_facts ok size (Z.to_nat size)). lia.
Qed.

(** A negative size is accepted by [int]; the loop then sends nothing. *)
Lemma send_tcp_data_nonpositive (ok : nat -> bool) (size : Z) :
  size <= 0 -> send_tcp_data ok size = ([], SendDone).
Proof.
  intros Hs. unfold send_tcp_data. rewrite send_loop_eq.
  destruct (Z.ltb_spec 0 size); [lia|reflexivity].
Qed.

Lemma endswith_newline_snoc (data : list byte) (b : byte) :
  endswith_newline (data ++ [b]) = Byte.eqb b x0a.
Proof. unfold endswith_newline. rewrite rev_unit. reflexivity. Qed.

Lemma eqb_newline_false (b : byte) : b <> x0a -> Byte.eqb b x0a = false.
Proof.
  intros Hb. destruct (Byte.eqb b x0a) eqn:E; [|reflexivity].
  apply Byte.byte_dec_bl in E. contradiction.
Qed.

Lemma read_request_closed (bs : list byte) (rest : list recv_event) :
  forall data,
    endswith_newline data = false ->
    ~ In x0a bs ->
    read_request (one_by_one bs ++ Closed :: rest) data = PeerClosed.
Proof.
  induction bs as [|b bs IH]; intros data Hd Hnl.
  - destruct data; simpl in *; rewrite ?Hd; reflexivity.
  - assert (Hb : b <> x0a) by (intros ->; apply Hnl; left; reflexivity).
    assert (Hstep : read_request (one_by_one (b :: bs) ++ Closed :: rest) data
                    = read_request (one_by_one bs ++ Closed :: rest)
                        (data ++ [b])).
    { destruct data; simpl in *; rewrite ?Hd; reflexivity. }
    rewrite Hstep. apply IH.
    + rewrite endswith_newline_snoc. apply eqb_newline_false, Hb.
    + intros Hin. apply Hnl. right. exact Hin.
Qed.

Lemma read_request_done (data : list byte) (conn : list recv_event) :
  endswith_newline data = true -> read_request conn data = Line data.
Proof. intros Hd. destruct conn; simpl; rewrite Hd; reflexivity. Qed.

Lemma read_request_line (bs : list byte) (rest : list recv_event) :
  forall data,
    endswith_newline data = false ->
    ~ In x0a bs ->
    read_request (one_by_one (bs ++ [x0a]) ++ rest) data
    = Line (data ++ bs ++ [x0a]).
Proof.
  induction bs as [|b bs IH]; intros data Hd Hnl.
  - assert (Hstep : read_request (one_by_one ([] ++ [x0a]) ++ rest) data
                    = read_request rest (data ++ [x0a])).
    { destruct data; simpl in *; rewrite ?Hd; reflexivity. }
    rewrite Hstep. cbn [app]. apply read_request_done.
    rewrite endswith_newline_snoc. reflexivity.
  - assert (Hb : b <> x0a) by (intros ->; apply Hnl; left; reflexivity).
    assert (Hstep : read_request (one_by_one ((b :: bs) ++ [x0a]) ++ rest) data
                    = read_request (one_by_one (bs ++ [x0a]) ++ rest)
                        (data ++ [b])).
    { destruct data; simpl in *; rewrite ?Hd; reflexivity. }
    rewrite Hstep, IH.
    + rewrite <- app_assoc. reflexivity.
    + rewrite endswith_newline_snoc. apply eqb_newline_false, Hb.
    + intros Hin. apply Hnl. right. exact Hin.
Qed.

Section Handler.

Variable decode : list byte -> option string.
Variable int : string -> option Z.

Lemma listen_tcp_app (evs1 evs2 : list accept_event) :
  listen_tcp decode int (evs1 ++ evs2)
  = listen_tcp decode int evs1 ++ listen_tcp decode int evs2.
Proof.
  induction evs1 as [|[conn ok| |] evs1 IH]; simpl; rewrite ?IH; reflexivity.
Qed.

(** C5, as the code has it.  A request line whose text parses to a size
    [size >= 0] is answered with buffers of the filler byte: buffer [j] has
    [min(4096, size - 4096*j)] bytes, the bytes remaining before it; the
    loop stops before the whole size has been sent only when a [sendall]
    fails, and without such a failure exactly [size] bytes are written.
    For a size of 5000 the writes have 4096 and 904 bytes. *)
Theorem tcp_stream_correct (conn : list recv_event) (sendall_ok : nat -> bool)
    (data : list byte) (size_str : string) (size : Z) :
  read_request conn [] = Line data ->
  decode (strip data) = Some size_str ->
  int size_str = Some size ->
  0 <= size ->
  let res := handle_tcp_client decode int conn sendall_ok in
  (exists st,
      outcome res = Served size st /\
      (st = SendDone -> sumZ (map len (written res)) = size) /\
      (st = SendError ->
         sendall_ok (length (written res)) = false /\
         sumZ (map len (written res)) < size) /\
      ((forall k, sendall_ok k = true) -> st = SendDone)) /\
  (forall j w,
      nth_error (written res) j = Some w ->
      w = repeat_byte "X" (Z.min 4096 (size - 4096 * Z.of_nat j)) /\
      len w = Z.min 4096 (size - 4096 * Z.of_nat j) /\
      0 < len w) /\
  (forall j, (j < length (written res))%nat -> sendall_ok j = true) /\
  sock_closed res = true /\
  (size = 5000 -> (forall k, sendall_ok k = true) ->
   map len (written res) = [4096; 904]).
Proof.
  intros Hread Hdec Hint Hsize. cbv zeta.
  unfold handle_tcp_client. rewrite Hread, Hdec, Hint.
  cbn [outcome written sock_closed].
  destruct (send_tcp_data_facts sendall_ok size) as [Hc Hd He Hb Hne].
  split; [|split; [|split; [|split]]].
  - exists (snd (send_tcp_data sendall_ok size)).
    split; [reflexivity|]. split; [|split].
    + intros Hst. rewrite (Hd Hst). lia.
    + intros Hst. destruct (He Hst) as [He1 He2]. split; [exact He1 | lia].
    + exact Hne.
  - intros j w Hw. destruct (Hc j w Hw) as [Hw1 Hw2].
    unfold chunk_size in *. rewrite Z.add_0_l in Hw1, Hw2.
    split; [exact Hw1|].
    rewrite Hw1, len_repeat_byte. lia.
  - exact Hb.
  - reflexivity.
  - intros -> Hall. unfold send_tcp_data.
    rewrite send_loop_eq. change (0 <? 5000) with true. cbv iota.
    rewrite Hall. cbv zeta.
    change (0 + Z.min chunk_size (5000 - 0)) with 4096.
    rewrite send_loop_eq. change (4096 <? 5000) with true. cbv iota.
    rewrite Hall. cbv zeta.
    change (4096 + Z.min chunk_size (5000 - 4096)) with 5000.
    rewrite send_loop_eq. change (5000 <? 5000) with false. cbv iota.
    reflexivity.
Qed.

(** C9. A connection the peer closes before any newline ends cleanly:
    nothing is written or printed and the socket is closed.  A request line
    whose text does not parse ends that connection: nothing is written and
    the socket is closed.  In both cases the accept loop goes on: what it
    does for the connections accepted before and after is what it does
    without this one. *)
Theorem tcp_abort_is_local (line : list byte) (rest : list recv_event)
    (sendall_ok : nat -> bool) (before after : list accept_event) :
  ~ In x0a line ->
  let closing := one_by_one line ++ Closed :: rest in
  let garbled := one_by_one (line ++ [x0a]) ++ rest in
  handle_tcp_client decode int closing sendall_ok
    = {| outcome := ClosedEarly; written := []; printed := [];
         sock_closed := true |} /\
  (unparsable decode int (line ++ [x0a]) ->
   let res := handle_tcp_client decode int garbled sendall_ok in
   (outcome res = InvalidSize \/ outcome res = ClientError) /\
   written res = [] /\ sock_closed res = true) /\
  (forall conn,
      conn = closing \/ conn = garbled ->
      listen_tcp decode int (before ++ Accepted conn sendall_ok :: after)
      = listen_tcp decode int before
          ++ handle_tcp_client decode int conn sendall_ok
          :: listen_tcp decode int after).
Proof.
  intros Hnl. cbv zeta.
  split; [|split].
  - unfold handle_tcp_client.
    rewrite (read_request_closed line rest [] eq_refl Hnl). reflexivity.
  - unfold unparsable, handle_tcp_client.
    rewrite (read_request_line line rest [] eq_refl Hnl). cbn [app].
    destruct (decode (strip (line ++ [x0a]))) as [size_str|].
    + intros ->. cbn. auto.
    + intros _. cbn. auto.
  - intros conn _. rewrite listen_tcp_app. reflexivity.
Qed.

End Handler.

Lemma tcp_stream_correct_witness :
  let res :=
    handle_tcp_client Builtins.decode Builtins.int
      (Builtins.sends "5000" ++ [Chunk [x0a]]) (fun _ => true) in
  (exists st,
      outcome res = Served 5000 st /\
      (st = SendDone -> sumZ (map len (written res)) = 5000) /\
      (st = SendError ->
         (fun _ : nat => true) (length (written res)) = false /\
         sumZ (map len (written res)) < 5000) /\
      ((forall k : nat, (fun _ : nat => true) k = true) -> st = SendDone)) /\
  (forall j w,
      nth_error (written res) j = Some w ->
      w = repeat_byte "X" (Z.min 4096 (5000 - 4096 * Z.of_nat j)) /\
      len w = Z.min 4096 (5000 - 4096 * Z.of_nat j) /\
      0 < len w) /\
  (forall j, (j < length (written res))%nat -> (fun _ : nat => true) j = true) /\
  sock_closed res = true /\
  (5000 = 5000 -> (forall k : nat, (fun _ : nat => true) k = true) ->
   map len (written res) = [4096; 904]).
Proof.
  apply (tcp_stream_correct Builtins.decode Builtins.int
           (Builtins.sends "5000" ++ [Chunk [x0a]]) (fun _ => true)
           (list_byte_of_string "5000" ++ [x0a]) "5000" 5000);
    [reflexivity | reflexivity | reflexivity | lia].
Defined.

Lemma tcp_abort_is_local_witness :
  let line := list_byte_of_string "12a" in
  let closing := one_by_one line ++ [Closed] in
  let garbled := one_by_one (line ++ [x0a]) ++ [] in
  handle_tcp_client Builtins.decode Builtins.int closing (fun _ => true)
    = {| outcome := ClosedEarly; written := []; printed := [];
         sock_closed := true |} /\
  (unparsable Builtins.decode Builtins.int (line ++ [x0a]) ->
   let res :=
     handle_tcp_client Builtins.decode Builtins.int garbled (fun _ => true) in
   (outcome res = InvalidSize \/ outcome res = ClientError) /\
   written res = [] /\ sock_closed res = true) /\
  (forall conn,
      conn = closing \/ conn = garbled ->
      listen_tcp Builtins.decode Builtins.int
        ([AcceptTimeout] ++ Accepted conn (fun _ => true)
           :: [Accepted (Builtins.sends "7" ++ [Chunk [x0a]]) (fun _ => true)])
      = listen_tcp Builtins.decode Builtins.int [AcceptTimeout]
          ++ handle_tcp_client Builtins.decode Builtins.int conn (fun _ => true)
          :: listen_tcp Builtins.decode Builtins.int
               [Accepted (Builtins.sends "7" ++ [Chunk [x0a]]) (fun _ => true)]).
Proof.
  apply (tcp_abort_is_local Builtins.decode Builtins.int
           (list_byte_of_string "12a") [] (fun _ => true) [AcceptTimeout]
           [Accepted (Builtins.sends "7" ++ [Chunk [x0a]]) (fun _ => true)]).
  vm_compute. intros [H|[H|[H|[]]]]; discriminate.
Defined.

(** The garbled request of the witness does fail to parse, and the
    connection accepted after it is served. *)
Example garbled_then_served :
  map outcome
    (listen_tcp Builtins.decode Builtins.int
       [Accepted (Builtins.sends "12a" ++ [Chunk [x0a]]) (fun _ => true);
        Accepted (Builtins.sends "12" ++ [Closed]) (fun _ => true);
        Accepted (Builtins.sends "7" ++ [Chunk [x0a]]) (fun _ => true)])
  = [InvalidSize; ClosedEarly; Served 7 SendDone].
Proof. vm_compute. reflexivity. Qed.

(** The claim of C5 fails on this request.  The line "-1" is read, stripped,
    decoded and parsed without error to the size -1; the handler announces
    it, the [while] condition [0 < -1] is false at once, and nothing is
    written: the bytes sent, none, are not the parsed size. *)
Lemma negative_size_writes_nothing :
  let res :=
    handle_tcp_client Builtins.decode Builtins.int
      (Builtins.sends "-1" ++ [Chunk [x0a]]) (fun _ => true) in
  read_request (Builtins.sends "-1" ++ [Chunk [x0a]]) []
    = Line (list_byte_of_string "-1" ++ [x0a]) /\
  Builtins.int "-1" = Some (-1) /\
  outcome res = Served (-1) SendDone /\
  printed res = [LogRequested (-1)] /\
  written res = [] /\
  sumZ (map len (written res)) = 0 /\
  sumZ (map len (written res)) <> -1.
Proof.
  cbv zeta. repeat split; try (vm_compute; reflexivity).
  vm_compute. discriminate.
Qed.

End TcpServer.

(** ** Float comparisons *)

Module PyFloatFacts.
Import PyFloat.

Lemma compare_cont_opp (m1 m2 : positive) :
  Pos.compare_cont Eq m2 m1 = CompOpp (Pos.compare_cont Eq m1 m2).
Proof. apply (Pos.compare_antisym m1 m2). Qed.

(** Swapping the two sides of a comparison reverses its result. *)
Lemma SFcompare_swap (x y : float) :
  SFcompare y x = option_map CompOpp (SFcompare x y).
Proof.
  destruct x as [sx|sx| |sx mx ex], y as [sy|sy| |sy my ey];
    try reflexivity; try (destruct sx; reflexivity);
    try (destruct sy; reflexivity);
    try (destruct sx, sy; reflexivity).
  destruct sx, sy; try reflexivity; simpl;
    rewrite (Z.compare_antisym ex ey);
    destruct (ex ?= ey); simpl; try reflexivity;
    rewrite (compare_cont_opp mx my);
    destruct (Pos.compare_cont Eq mx my); reflexivity.
Qed.

Lemma SFcompare_defined (x y : float) :
  is_nan x = false -> is_nan y = false -> exists c, SFcompare x y = Some c.
Proof.
  destruct x as [sx|sx| |sx mx ex], y as [sy|sy| |sy my ey];
    simpl; intros Hx Hy; try discriminate; eexists; reflexivity.
Qed.

Lemma SFcompare_refl (x : float) :
  is_nan x = false -> SFcompare x x = Some Eq.
Proof.
  destruct x as [sx|sx| |sx mx ex]; simpl; intros Hx; try discriminate.
  - reflexivity.
  - destruct sx; reflexivity.
  - rewrite Z.compare_refl.
    change (Pos.compare_cont Eq mx mx) with (mx ?= mx)%positive.
    rewrite Pos.compare_refl. destruct sx; reflexivity.
Qed.

(** [max(x, y) >= y] unless a NaN is involved. *)
Lemma max2_ge_right (x y : float) :
  is_nan x = false -> is_nan y = false -> float_ge (max2 x y) y = true.
Proof.
  intros Hx Hy. unfold max2, float_gt, float_ge, SFltb, SFleb.
  destruct (SFcompare_defined x y Hx Hy) as [c Hc]. rewrite Hc.
  destruct c.
  - rewrite SFcompare_swap, Hc. reflexivity.
  - rewrite (SFcompare_refl y Hy). reflexivity.
  - rewrite SFcompare_swap, Hc. reflexivity.
Qed.

Lemma lit_1e_6_value : lit_1e_6 = S754_finite false 4722366482869645 (-72).
Proof. vm_compute. reflexivity. Qed.

Lemma max2_positive_nonzero (x : float) (m : positive) (e : Z) :
  is_zero (max2 x (S754_finite false m e)) = false.
Proof.
  unfold max2, float_gt, SFltb.
  destruct x as [sx|sx| |sx mx ex].
  - reflexivity.
  - destruct (SFcompare _ _) as [[| |]|]; reflexivity.
  - reflexivity.
  - destruct (SFcompare _ _) as [[| |]|]; reflexivity.
Qed.

(** [max(x, 1e-6)] is never a zero, whatever [x] is. *)
Lemma max2_epsilon_nonzero (x : float) : is_zero (max2 x lit_1e_6) = false.
Proof. rewrite lit_1e_6_value. apply max2_positive_nonzero. Qed.

Lemma float_truediv_nonzero (x y : float) :
  is_zero y = false -> float_truediv x y = Ok (SFdiv prec emax x y).
Proof. intros Hy. unfold float_truediv. rewrite Hy. reflexivity. Qed.

Lemma int_truediv_nonzero (a b : Z) :
  b <> 0 -> int_truediv a b <> Raise ZeroDivisionError.
Proof.
  intros Hb. unfold int_truediv.
  destruct (Z.eqb_spec b 0); [contradiction|].
  destruct (is_infinity _); discriminate.
Qed.

End PyFloatFacts.

(** ** The client's UDP receive loop: invariants *)

Module UdpReceiver.
Import Bytes Struct Constants Net PyFloat Spec.
Import BytesFacts StructFacts WireFormat PyFloatFacts.
Import Client.

Lemma split_fields_nonneg (cs : list code) :
  forall bs, Forall (fun v => 0 <= v) (split_fields cs bs).
Proof.
  induction cs as [|c cs IH]; intros bs; simpl; constructor.
  - apply be_value_range.
  - apply IH.
Qed.

Lemma unpack_nonneg (fmt : string) (bs : list byte) (vs : list Z) :
  unpack fmt bs = Some vs -> Forall (fun v => 0 <= v) vs.
Proof.
  unfold unpack. destruct (parse_format fmt) as [cs|]; [|discriminate].
  destruct (Nat.eqb _ _); [|discriminate].
  intros H. inversion H; subst. apply split_fields_nonneg.
Qed.

(** Every way through the [try] body of a datagram, spelled out. *)
Lemma on_payload_cases (st : udp_state) (data : list byte) (now : float) :
  on_payload st data now = Continue st \/
  exists mc mt total_seg current_seg,
    (21 <= length data)%nat /\
    unpack PAYLOAD_STRUCT_FORMAT (firstn 21 data)
      = Some [mc; mt; total_seg; current_seg] /\
    mc = MAGIC_COOKIE /\ mt = MSG_TYPE_PAYLOAD /\
    on_payload st data now =
      Continue {| total_bytes := total_bytes st + len (skipn 21 data);
                  total_segments := total_seg;
                  segments_received := segments_received st + 1;
                  last_data_time := now |}.
Proof.
  unfold on_payload. rewrite calcsize_payload.
  destruct (Nat.ltb_spec (length data) 21) as [Hlt|Hge]; [left; reflexivity|].
  assert (Hlen : length (firstn 21 data) = 21%nat)
    by (rewrite length_firstn; lia).
  destruct (unpack PAYLOAD_STRUCT_FORMAT (firstn 21 data)) as [vs|] eqn:Hu.
  - unfold unpack in Hu. rewrite payload_format in Hu.
    rewrite Hlen in Hu. simpl Nat.eqb in Hu. cbv iota in Hu.
    inversion Hu; subst vs; clear Hu. cbn [split_fields].
    set (mc := be_value _). set (mt := be_value _).
    set (total_seg := be_value _). set (current_seg := be_value _).
    destruct (Z.eqb_spec mc MAGIC_COOKIE) as [Hmc|Hmc];
      [|left; reflexivity].
    destruct (Z.eqb_spec mt MSG_TYPE_PAYLOAD) as [Hmt|Hmt];
      [|left; reflexivity].
    right. exists mc, mt, total_seg, current_seg.
    repeat split; assumption.
  - exfalso. unfold unpack in Hu. rewrite payload_format, Hlen in Hu.
    discriminate.
Qed.

(** A datagram never makes the loop stop or the thread die. *)
Lemma on_payload_continues (st : udp_state) (data : list byte) (now : float) :
  exists st', on_payload st data now = Continue st'.
Proof.
  destruct (on_payload_cases st data now) as [H|(mc & mt & t & c & _ & _ & _ & _ & H)];
    rewrite H; eexists; reflexivity.
Qed.

Lemma on_payload_total_nonneg (st st' : udp_state) (data : list byte)
    (now : float) :
  on_payload st data now = Continue st' ->
  0 <= total_segments st -> 0 <= total_segments st'.
Proof.
  intros Hstep Hst.
  destruct (on_payload_cases st data now)
    as [H|(mc & mt & t & c & _ & Hu & _ & _ & H)];
    rewrite H in Hstep; inversion Hstep; subst; [assumption|].
  cbn [total_segments].
  apply unpack_nonneg in Hu.
  inversion Hu as [|? ? _ Hu1]; inversion Hu1 as [|? ? _ Hu2];
    inversion Hu2 as [|? ? Ht _]; exact Ht.
Qed.

Lemma udp_receive_total_nonneg (trace : list (float * recvfrom_event)) :
  forall st st',
    udp_receive st trace = Finished st' ->
    0 <= total_segments st -> 0 <= total_segments st'.
Proof.
  induction trace as [|[now ev] rest IH]; intros st st' Hrun Hst;
    [discriminate|].
  cbn [udp_receive] in Hrun.
  destruct (udp_iteration st now ev) as [st1| |] eqn:Hit; try discriminate.
  - apply (IH st1 st' Hrun).
    destruct ev as [data addr| | |]; cbn [udp_iteration] in Hit.
    + exact (on_payload_total_nonneg _ _ _ _ Hit Hst).
    + destruct (float_gt _ _); inversion Hit; subst; assumption.
    + discriminate.
    + discriminate.
  - inversion Hrun; subst. assumption.
Qed.

End UdpReceiver.

(** ** The client's statistics *)

Module ClientStats.
Import Bytes Struct Constants Net PyFloat Spec.
Import PyFloatFacts UdpReceiver.
Import Client.

Lemma lit_1e_6_not_nan : is_nan lit_1e_6 = false.
Proof. rewrite lit_1e_6_value. reflexivity. Qed.

Lemma duration_nonzero (start_time end_time : float) :
  is_zero (duration start_time end_time) = false.
Proof. apply max2_epsilon_nonzero. Qed.

Lemma speed_bps_eq (received : Z) (d : float) :
  is_zero d = false ->
  speed_bps received d =
  bind (float_of_int (received * 8)) (fun bits => Ok (SFdiv prec emax bits d)).
Proof.
  intros Hd. unfold speed_bps.
  destruct (float_of_int (received * 8)) as [bits|e]; simpl; [|reflexivity].
  apply float_truediv_nonzero, Hd.
Qed.

Lemma success_rate_no_zero_division (segs total : Z) :
  success_rate segs total <> Raise ZeroDivisionError.
Proof.
  unfold success_rate.
  destruct (Z.gtb_spec total 0) as [Hpos|Hle]; [|discriminate].
  pose proof (int_truediv_nonzero segs total ltac:(lia)) as Hq.
  destruct (int_truediv segs total) as [q|[|]]; simpl;
    congruence || discriminate.
Qed.

(** C6. The success rate is [(segments_received / total_segments) * 100],
    in binary64 arithmetic, when [total_segments > 0], and [0.0] when it is
    0; it never raises a division by zero; 7 segments received out of 10
    give exactly 70.0.  The rate a finished UDP transfer reports is this
    function of its two final counters, and its final [total_segments] is
    never negative, so the two cases are all there is. *)
Theorem success_rate_correct (segs total : Z) :
  (0 < total ->
   success_rate segs total =
   bind (int_truediv segs total) (fun ratio => Ok (float_mul ratio lit_100))) /\
  (total = 0 -> success_rate segs total = Ok lit_0_0) /\
  success_rate segs total <> Raise ZeroDivisionError /\
  success_rate 7 10 = Ok (nearest 70) /\
  success_rate segs 0 = Ok (S754_zero false) /\
  (forall file_size request_sent start_time sent_time trace end_time r,
      handle_udp_transfer file_size request_sent start_time sent_time trace
        end_time = Reported r ->
      udp_success_rate r =
        success_rate (segments_received (udp_final r))
                     (total_segments (udp_final r)) /\
      0 <= total_segments (udp_final r)).
Proof.
  split; [|split; [|split; [|split; [|split]]]].
  - intros Hpos. unfold success_rate.
    destruct (Z.gtb_spec total 0); [reflexivity|lia].
  - intros ->. reflexivity.
  - apply success_rate_no_zero_division.
  - vm_compute. reflexivity.
  - reflexivity.
  - intros file_size request_sent start_time sent_time trace end_time r.
    unfold handle_udp_transfer.
    destruct (request_packet file_size); [|discriminate].
    destruct request_sent; [|discriminate]. cbn [negb].
    destruct (udp_receive _ trace) as [st| |] eqn:Hrun; try discriminate.
    intros Hr. inversion Hr; subst r; clear Hr. cbn.
    split; [reflexivity|].
    apply (udp_receive_total_nonneg _ _ _ Hrun). cbn. lia.
Qed.

(** C7. The throughput of a transfer is [(received * 8) / duration] with
    [duration = max(end_time - start_time, 1e-6)].  That duration is never
    zero, so the division never raises; unless the elapsed time is a NaN the
    duration is at least 1e-6.  Both the TCP and the UDP report are computed
    this way, and 1,000,000 bytes in 2.0 seconds give 4,000,000.0. *)
Theorem throughput_defined (received : Z) (start_time end_time : float) :
  let d := duration start_time end_time in
  d = max2 (float_sub end_time start_time) lit_1e_6 /\
  is_zero d = false /\
  (is_nan (float_sub end_time start_time) = false ->
   float_ge d lit_1e_6 = true) /\
  speed_bps received d =
    bind (float_of_int (received * 8))
         (fun bits => Ok (SFdiv prec emax bits d)) /\
  speed_bps received d <> Raise ZeroDivisionError /\
  (forall file_size connected trace r,
      handle_tcp_transfer file_size connected trace start_time end_time
        = Some r ->
      tcp_duration r = d /\
      tcp_speed_bps r = speed_bps (tcp_received r) d) /\
  (forall file_size request_sent sent_time trace r,
      handle_udp_transfer file_size request_sent start_time sent_time trace
        end_time = Reported r ->
      udp_duration r = d /\
      udp_speed_bps r = speed_bps (total_bytes (udp_final r)) d) /\
  duration (nearest 100) (nearest 102) = nearest 2 /\
  speed_bps 1000000 (nearest 2) = Ok (nearest 4000000).
Proof.
  cbv zeta.
  pose proof (duration_nonzero start_time end_time) as Hnz.
  split; [reflexivity|]. split; [exact Hnz|].
  split; [|split; [|split; [|split; [|split; [|split]]]]].
  - intros Hnan. apply max2_ge_right; [exact Hnan | exact lit_1e_6_not_nan].
  - apply speed_bps_eq, Hnz.
  - rewrite (speed_bps_eq _ _ Hnz).
    destruct (float_of_int (received * 8)) as [bits|e] eqn:Hf; simpl;
      [discriminate|].
    unfold float_of_int in Hf. destruct (is_infinity _); [|discriminate].
    inversion Hf. discriminate.
  - intros file_size connected trace r. unfold handle_tcp_transfer.
    destruct (if connected then _ else _) as [n|]; [|discriminate].
    intros Hr. inversion Hr; subst r. cbn. split; reflexivity.
  - intros file_size request_sent sent_time trace r.
    unfold handle_udp_transfer.
    destruct (request_packet file_size); [|discriminate].
    destruct request_sent; [|discriminate]. cbn [negb].
    destruct (udp_receive _ trace) as [st| |]; try discriminate.
    intros Hr. inversion Hr; subst r. cbn. split; reflexivity.
  - vm_compute. reflexivity.
  - vm_compute. reflexivity.
Qed.

End ClientStats.

(** ** How the three receivers read a datagram *)

Module Receivers.
Import Bytes Struct Constants Net PyFloat Spec.
Import BytesFacts StructFacts WireFormat PyFloatFacts UdpReceiver.

Lemma firstn_1_skipn_4_firstn (n : nat) (data : list byte) :
  (5 <= n)%nat ->
  firstn 1 (skipn 4 (firstn n data)) = firstn 1 (skipn 4 data).
Proof.
  intros Hn.
  replace n with (4 + (n - 4))%nat by lia.
  rewrite <- firstn_skipn_comm, firstn_firstn.
  replace (Nat.min 1 (n - 4)) with 1%nat by lia. reflexivity.
Qed.

Lemma firstn_4_firstn (n : nat) (data : list byte) :
  (4 <= n)%nat -> firstn 4 (firstn n data) = firstn 4 data.
Proof.
  intros Hn. rewrite firstn_firstn.
  replace (Nat.min 4 n) with 4%nat by lia. reflexivity.
Qed.

(** [on_request], by the length of the datagram. *)
Lemma on_request_cases (data : list byte) (addr : address) :
  Server.on_request data addr =
  if (length data <? 13)%nat then Server.Dropped
  else if (length data =? 13)%nat then
    if (be_value (firstn 4 data) =? MAGIC_COOKIE)
       && (be_value (firstn 1 (skipn 4 data)) =? MSG_TYPE_REQUEST)
    then Server.SpawnTransfer addr (be_value (firstn 8 (skipn 1 (skipn 4 data))))
    else Server.Dropped
  else Server.LoggedError.
Proof.
  unfold Server.on_request. rewrite calcsize_request.
  destruct (Nat.leb_spec 13 (length data)) as [Hge|Hlt];
    destruct (Nat.ltb_spec (length data) 13) as [Hlt'|Hge']; try lia;
    [|reflexivity].
  unfold unpack. rewrite request_format.
  change (codes_size [code_L; code_B; code_Q]) with 13%nat.
  destruct (Nat.eqb (length data) 13); reflexivity.
Qed.

(** [on_offer], by the length of the datagram. *)
Lemma on_offer_cases (data : list byte) (addr : address) :
  Client.on_offer data addr =
  if (length data <? 9)%nat then Client.Skip
  else if (length data =? 9)%nat then
    if (be_value (firstn 4 data) =? MAGIC_COOKIE)
       && (be_value (firstn 1 (skipn 4 data)) =? MSG_TYPE_OFFER)
    then Client.Accept (fst addr)
           (be_value (firstn 2 (skipn 1 (skipn 4 data))))
           (be_value (firstn 2 (skipn 2 (skipn 1 (skipn 4 data)))))
    else Client.Skip
  else Client.Fail.
Proof.
  unfold Client.on_offer. rewrite calcsize_offer.
  destruct (Nat.leb_spec 9 (length data)) as [Hge|Hlt];
    destruct (Nat.ltb_spec (length data) 9) as [Hlt'|Hge']; try lia;
    [|reflexivity].
  unfold unpack. rewrite offer_format.
  change (codes_size [code_L; code_B; code_H; code_H]) with 9%nat.
  destruct (Nat.eqb (length data) 9); reflexivity.
Qed.

(** [on_payload], by [is_payload_segment]. *)
Lemma on_payload_eq (st : Client.udp_state) (data : list byte) (now : float) :
  Client.on_payload st data now =
  if is_payload_segment data then
    Client.Continue
      {| Client.total_bytes := Client.total_bytes st + len (skipn 21 data);
         Client.total_segments :=
           be_value (firstn 8 (skipn 1 (skipn 4 (firstn 21 data))));
         Client.segments_received := Client.segments_received st + 1;
         Client.last_data_time := now |}
  else Client.Continue st.
Proof.
  unfold Client.on_payload, is_payload_segment. rewrite calcsize_payload.
  destruct (Nat.leb_spec 21 (length data)) as [Hge|Hlt];
    destruct (Nat.ltb_spec (length data) 21) as [Hlt'|Hge']; try lia;
    [|reflexivity].
  unfold unpack. rewrite payload_format.
  change (codes_size [code_L; code_B; code_Q; code_Q]) with 21%nat.
  rewrite length_firstn.
  replace (Nat.min 21 (length data)) with 21%nat by lia.
  cbn [Nat.eqb split_fields code_size andb].
  rewrite firstn_4_firstn, firstn_1_skipn_4_firstn by lia.
  destruct (be_value (firstn 4 data) =? MAGIC_COOKIE);
    destruct (be_value (firstn 1 (skipn 4 data)) =? MSG_TYPE_PAYLOAD);
    reflexivity.
Qed.

Lemma cookie_mismatch (data : list byte) :
  cookie_field data <> Some MAGIC_COOKIE ->
  (4 <= length data)%nat ->
  (be_value (firstn 4 data) =? MAGIC_COOKIE) = false.
Proof.
  unfold cookie_field. intros Hc Hlen.
  destruct (Nat.ltb_spec (length data) 4); [lia|].
  apply Z.eqb_neq. intros E. apply Hc. rewrite E. reflexivity.
Qed.

(** What does hold of a cookie mismatch.  A datagram whose first four bytes
    are not the magic cookie (or that has fewer than four bytes) is never
    taken for a message, whatever
    its other bytes and its length.  The server starts no transfer for it;
    the client's receive loop goes on with its counters and its clock
    unchanged; the discovery loop takes no offer from it, so an offer it
    returns comes from a later datagram.  Up to the size of the expected
    header (13 bytes for a request, 9 for an offer) the datagram is dropped
    with no trace. *)
Theorem cookie_mismatch_rejected (data : list byte) (addr : address) :
  cookie_field data <> Some MAGIC_COOKIE ->
  (forall a n, Server.on_request data addr <> Server.SpawnTransfer a n) /\
  (forall before after,
      Server.listen_udp_requests (before ++ Datagram data addr :: after)
      = Server.listen_udp_requests (before ++ after)) /\
  ((length data <= 13)%nat -> Server.on_request data addr = Server.Dropped) /\
  (forall st now,
      Client.udp_iteration st now (Datagram data addr) = Client.Continue st) /\
  (forall ip u t, Client.on_offer data addr <> Client.Accept ip u t) /\
  (forall start_time now rest ip u t,
      Client.listen_for_offer start_time ((now, Datagram data addr) :: rest)
        = Client.OfferFound ip u t ->
      Client.listen_for_offer start_time rest = Client.OfferFound ip u t) /\
  ((length data <= 9)%nat -> Client.on_offer data addr = Client.Skip).
Proof.
  intros Hc.
  assert (Hreq : Server.on_request data addr = Server.Dropped \/
                 Server.on_request data addr = Server.LoggedError).
  { rewrite on_request_cases.
    destruct (Nat.ltb_spec (length data) 13); [left; reflexivity|].
    destruct (Nat.eqb (length data) 13); [|right; reflexivity].
    rewrite cookie_mismatch by (assumption || lia). left. reflexivity. }
  assert (Hoff : Client.on_offer data addr = Client.Skip \/
                 Client.on_offer data addr = Client.Fail).
  { rewrite on_offer_cases.
    destruct (Nat.ltb_spec (length data) 9); [left; reflexivity|].
    destruct (Nat.eqb (length data) 9); [|right; reflexivity].
    rewrite cookie_mismatch by (assumption || lia). left. reflexivity. }
  split; [|split; [|split; [|split; [|split; [|split]]]]].
  - intros a n. destruct Hreq as [-> | ->]; discriminate.
  - intros before after.
    induction before as [|ev before IH]; cbn [app Server.listen_udp_requests].
    + cbn [Server.udp_step]. destruct Hreq as [-> | ->]; reflexivity.
    + rewrite IH. reflexivity.
  - intros Hlen. rewrite on_request_cases.
    destruct (Nat.ltb_spec (length data) 13); [reflexivity|].
    replace (length data) with 13%nat by lia. cbn [Nat.eqb].
    rewrite cookie_mismatch by (assumption || lia). reflexivity.
  - intros st now. cbn [Client.udp_iteration]. rewrite on_payload_eq.
    unfold is_payload_segment.
    destruct (Nat.leb_spec 21 (length data)); [|reflexivity].
    rewrite cookie_mismatch by (assumption || lia). reflexivity.
  - intros ip u t. destruct Hoff as [-> | ->]; discriminate.
  - intros start_time now rest ip u t.
    unfold Client.listen_for_offer. cbn [Client.offer_loop].
    destruct (float_gt _ _); [discriminate|].
    destruct Hoff as [-> | ->]; [trivial | discriminate].
  - intros Hlen. rewrite on_offer_cases.
    destruct (Nat.ltb_spec (length data) 9); [reflexivity|].
    replace (length data) with 9%nat by lia. cbn [Nat.eqb].
    rewrite cookie_mismatch by (assumption || lia). reflexivity.
Qed.

Lemma cookie_mismatch_rejected_witness :
  let data := be_bytes 4 0xabcddcbb ++ be_bytes 1 MSG_TYPE_REQUEST
                ++ be_bytes 8 2500 in
  let addr := ("10.0.0.7"%string, 40000) in
  (forall a n, Server.on_request data addr <> Server.SpawnTransfer a n) /\
  (forall before after,
      Server.listen_udp_requests (before ++ Datagram data addr :: after)
      = Server.listen_udp_requests (before ++ after)) /\
  ((length data <= 13)%nat -> Server.on_request data addr = Server.Dropped) /\
  (forall st now,
      Client.udp_iteration st now (Datagram data addr) = Client.Continue st) /\
  (forall ip u t, Client.on_offer data addr <> Client.Accept ip u t) /\
  (forall start_time now rest ip u t,
      Client.listen_for_offer start_time ((now, Datagram data addr) :: rest)
        = Client.OfferFound ip u t ->
      Client.listen_for_offer start_time rest = Client.OfferFound ip u t) /\
  ((length data <= 9)%nat -> Client.on_offer data addr = Client.Skip).
Proof.
  apply (cookie_mismatch_rejected
           (be_bytes 4 0xabcddcbb ++ be_bytes 1 MSG_TYPE_REQUEST
              ++ be_bytes 8 2500)
           ("10.0.0.7"%string, 40000)).
  vm_compute. discriminate.
Defined.

(** The same request with the right cookie does start a transfer. *)
Example request_accepted :
  Server.listen_udp_requests
    [Datagram (be_bytes 4 MAGIC_COOKIE ++ be_bytes 1 MSG_TYPE_REQUEST
                 ++ be_bytes 8 2500) ("10.0.0.7"%string, 40000)]
  = [(("10.0.0.7"%string, 40000), 2500)].
Proof. vm_compute. reflexivity. Qed.

(** A well-formed payload datagram always counts, whatever was received
    before. *)
Lemma on_payload_valid (st : Client.udp_state) (total cur : Z)
    (payload : list byte) (now : float) :
  0 <= total < 2 ^ 64 -> 0 <= cur < 2 ^ 64 ->
  exists header,
    Server.payload_header total cur = Some header /\
    Client.on_payload st (header ++ payload) now =
    Client.Continue
      {| Client.total_bytes := Client.total_bytes st + len payload;
         Client.total_segments := total;
         Client.segments_received := Client.segments_received st + 1;
         Client.last_data_time := now |}.
Proof.
  intros Ht Hc.
  destruct (Server.payload_header total cur) as [h|] eqn:Hp.
  2:{ unfold Server.payload_header in Hp. rewrite pack_payload in Hp;
        try assumption; try discriminate;
        unfold MAGIC_COOKIE, MSG_TYPE_PAYLOAD; lia. }
  pose proof (packed_size _ _ _ _ calcsize_payload Hp) as Hlen.
  pose proof (unpack_pack _ _ _ Hp) as Hun.
  rewrite <- (firstn_header h payload 21 Hlen) in Hun.
  pose proof (skipn_header h payload 21 Hlen) as Hskip.
  exists h. split; [reflexivity|].
  unfold Client.on_payload. rewrite calcsize_payload.
  destruct (Nat.ltb_spec (length (h ++ payload)) 21) as [Hlt|_];
    [rewrite length_app in Hlt; lia|].
  rewrite Hun, Hskip, !Z.eqb_refl. reflexivity.
Qed.

End Receivers.

(** ** Duplicated segments *)

Module Duplicates.
Import Bytes Struct Constants Net PyFloat Spec.
Import Receivers.

(** C10. Every well-formed payload datagram adds one to
    [segments_received] and overwrites [total_segments] with the value of
    its header, whatever was counted before, so a datagram delivered twice
    counts twice.  For the single segment the server sends for a 100-byte
    request, delivered twice: 2 segments received for a total of 1, and a
    reported success rate of 200.0, above 100. *)
Theorem duplicates_overcount :
  (forall st total cur payload now addr,
      0 <= total < 2 ^ 64 -> 0 <= cur < 2 ^ 64 ->
      exists header,
        Server.payload_header total cur = Some header /\
        Client.udp_iteration st now (Datagram (header ++ payload) addr) =
        Client.Continue
          {| Client.total_bytes := Client.total_bytes st + len payload;
             Client.total_segments := total;
             Client.segments_received := Client.segments_received st + 1;
             Client.last_data_time := now |}) /\
  exists datagram r rate,
    Server.handle_udp_transfer (fun _ => true) 100
      = ([datagram], Server.Completed) /\
    Client.handle_udp_transfer 100 true (nearest 0) (nearest 0)
      [(nearest 0, Datagram datagram ("10.0.0.1"%string, 50000));
       (nearest 0, Datagram datagram ("10.0.0.1"%string, 50000));
       (nearest 2, SockTimeout)]
      (nearest 2)
      = Client.Reported r /\
    Client.segments_received (Client.udp_final r) = 2 /\
    Client.total_segments (Client.udp_final r) = 1 /\
    Client.total_bytes (Client.udp_final r) = 200 /\
    Client.segments_received (Client.udp_final r)
      > Client.total_segments (Client.udp_final r) /\
    Client.udp_success_rate r = Ok rate /\
    rate = nearest 200 /\
    float_gt rate lit_100 = true.
Proof.
  split.
  - intros st total cur payload now addr Ht Hc.
    cbn [Client.udp_iteration]. apply on_payload_valid; assumption.
  - eexists. eexists. eexists.
    split; [vm_compute; reflexivity|].
    split; [vm_compute; reflexivity|].
    repeat split; vm_compute; reflexivity.
Qed.

End Duplicates.

(** ** The end of a UDP transfer on the client *)

Module QuietPeriod.
Import Bytes Struct Constants Net PyFloat Spec.
Import UdpReceiver Receivers.
Import Client.

Lemma iteration_break (st : udp_state) (now : float) (ev : recvfrom_event) :
  udp_iteration st now ev = Break <->
  ev = SockTimeout /\
  float_gt (float_sub now (last_data_time st)) UDP_TRANSFER_TIMEOUT = true.
Proof.
  destruct ev as [data addr| | |]; cbn [udp_iteration].
  - destruct (on_payload_continues st data now) as [st' ->].
    split; [discriminate | intros [H _]; discriminate].
  - destruct (float_gt _ _); split; try discriminate; auto.
    intros [_ H]; discriminate.
  - split; [discriminate | intros [H _]; discriminate].
  - split; [discriminate | intros [H _]; discriminate].
Qed.

Lemma receive_finished (trace : list (float * recvfrom_event)) :
  forall st st',
    udp_receive st trace = Finished st' <->
    exists pre now post,
      trace = pre ++ (now, SockTimeout) :: post /\
      udp_receive st pre = Receiving st' /\
      float_gt (float_sub now (last_data_time st')) UDP_TRANSFER_TIMEOUT = true.
Proof.
  induction trace as [|[now ev] rest IH]; intros st st'.
  - split; [discriminate|].
    intros (pre & n & post & E & _). destruct pre; discriminate.
  - cbn [udp_receive].
    destruct (udp_iteration st now ev) as [st1| |] eqn:Hit.
    + rewrite IH. split.
      * intros (pre & n & post & E & Hpre & Hgt).
        exists ((now, ev) :: pre), n, post. subst rest.
        split; [reflexivity|]. split; [|exact Hgt].
        cbn [udp_receive]. rewrite Hit. exact Hpre.
      * intros (pre & n & post & E & Hpre & Hgt).
        destruct pre as [|[n0 e0] pre].
        -- cbn in E. inversion E; subst.
           assert (Hb : udp_iteration st n SockTimeout = Break).
           { apply iteration_break. split; [reflexivity|].
             cbn in Hpre. inversion Hpre; subst. exact Hgt. }
           congruence.
        -- cbn in E. inversion E; subst.
           cbn [udp_receive] in Hpre. rewrite Hit in Hpre.
           exists pre, n, post. auto.
    + apply iteration_break in Hit. destruct Hit as [-> Hgt]. split.
      * intros H. inversion H; subst st'.
        exists [], now, rest. auto.
      * intros (pre & n & post & E & Hpre & Hgt').
        destruct pre as [|[n0 e0] pre].
        -- cbn in Hpre. inversion Hpre. reflexivity.
        -- cbn in E. inversion E; subst.
           cbn [udp_receive udp_iteration] in Hpre.
           rewrite Hgt in Hpre. discriminate.
    + split; [discriminate|].
      intros (pre & n & post & E & Hpre & Hgt).
      destruct pre as [|[n0 e0] pre].
      * cbn in E. inversion E; subst. cbn in Hpre. inversion Hpre; subst.
        cbn [udp_iteration] in Hit. rewrite Hgt in Hit. discriminate.
      * cbn in E. inversion E; subst.
        cbn [udp_receive] in Hpre. rewrite Hit in Hpre. discriminate.
Qed.

(** C8, as the code has it.  The loop ends at a receive timeout, and only
    there: it ends exactly at the first [socket.timeout] at which the clock
    is more than the 1-second timeout past the last valid payload segment
    (or past the sending of the request, if there was none).  A datagram that
    is not a payload segment leaves the counters and that time as they are;
    a payload segment sets the time to the clock. *)
Theorem quiet_period_termination :
  (forall st now ev,
      udp_iteration st now ev = Break <->
      ev = SockTimeout /\
      float_gt (float_sub now (last_data_time st)) UDP_TRANSFER_TIMEOUT = true) /\
  (forall trace st st',
      udp_receive st trace = Finished st' <->
      exists pre now post,
        trace = pre ++ (now, SockTimeout) :: post /\
        udp_receive st pre = Receiving st' /\
        float_gt (float_sub now (last_data_time st')) UDP_TRANSFER_TIMEOUT
          = true) /\
  (forall st now data addr,
      is_payload_segment data = false ->
      udp_iteration st now (Datagram data addr) = Continue st) /\
  (forall st now data addr,
      is_payload_segment data = true ->
      exists st',
        udp_iteration st now (Datagram data addr) = Continue st' /\
        last_data_time st' = now /\
        segments_received st' = segments_received st + 1).
Proof.
  split; [exact iteration_break|].
  split; [exact receive_finished|].
  split.
  - intros st now data addr Hinv. cbn [udp_iteration].
    rewrite on_payload_eq, Hinv. reflexivity.
  - intros st now data addr Hval. cbn [udp_iteration].
    rewrite on_payload_eq, Hval. eexists. split; [reflexivity|].
    split; reflexivity.
Qed.

(** The claim of C8 fails on this run.  The request goes out at time 0 and
    nothing valid is ever received.  Left alone, the first [recvfrom] times
    out after its second, at 1.001 s, and the loop ends there.  With a
    one-byte datagram at 0.75 s and another at 1.5 s, no [recvfrom] waits a
    full second before 2.501 s: the loop is still receiving at 1.5 s, when
    the last valid receipt is more than the timeout away, and it ends only
    at 2.501 s. *)
Lemma invalid_datagrams_postpone_the_end :
  let st0 := {| total_bytes := 0; total_segments := 0;
                segments_received := 0; last_data_time := nearest 0 |} in
  let junk := Datagram [x00] ("10.0.0.9"%string, 9) in
  is_payload_segment [x00] = false /\
  udp_receive st0 [(dyadic 1025 (-10), SockTimeout)] = Finished st0 /\
  udp_receive st0 [(dyadic 3 (-2), junk); (dyadic 3 (-1), junk)]
    = Receiving st0 /\
  float_gt (float_sub (dyadic 3 (-1)) (last_data_time st0))
    UDP_TRANSFER_TIMEOUT = true /\
  udp_receive st0
    [(dyadic 3 (-2), junk); (dyadic 3 (-1), junk);
     (dyadic 2561 (-10), SockTimeout)]
    = Finished st0.
Proof. cbv zeta. repeat split; vm_compute; reflexivity. Qed.

End QuietPeriod.

(** ** Offer discovery on the client *)

Module Discovery.
Import Bytes Struct Constants Net PyFloat Spec.
Import BytesFacts StructFacts WireFormat Receivers.
Import Client.

(** Once the clock is more than 10 seconds past the start, the attempt
    fails, whatever is waiting on the socket. *)
Lemma deadline_elapsed (start_time now : float) (ev : recvfrom_event)
    (rest : list (float * recvfrom_event)) :
  float_gt (float_sub now start_time) lit_10 = true ->
  listen_for_offer start_time ((now, ev) :: rest) = DeadlineElapsed.
Proof.
  intros Hd. unfold listen_for_offer. cbn [offer_loop]. rewrite Hd.
  reflexivity.
Qed.

(** With no datagram at all the attempt can only end by the deadline. *)
Lemma no_server_no_offer (start_time : float)
    (trace : list (float * recvfrom_event)) :
  Forall (fun e => snd e = SockTimeout) trace ->
  listen_for_offer start_time trace = DeadlineElapsed \/
  listen_for_offer start_time trace = Listening.
Proof.
  unfold listen_for_offer.
  induction 1 as [|[now ev] rest Hev _ IH]; [right; reflexivity|].
  cbn in Hev. subst ev. cbn [offer_loop].
  destruct (float_gt _ _); [left; reflexivity | exact IH].
Qed.

(** The first offer of exactly 9 bytes with the right cookie and type is
    returned at once, with the sender's host and the two ports. *)
Lemma valid_offer_found (start_time now : float) (udp tcp : Z)
    (addr : address) (rest : list (float * recvfrom_event)) :
  0 <= udp < 2 ^ 16 -> 0 <= tcp < 2 ^ 16 ->
  float_gt (float_sub now start_time) lit_10 = false ->
  exists offer,
    pack OFFER_STRUCT_FORMAT [MAGIC_COOKIE; MSG_TYPE_OFFER; udp; tcp]
      = Some offer /\
    listen_for_offer start_time ((now, Datagram offer addr) :: rest)
      = OfferFound (fst addr) udp tcp.
Proof.
  intros Hu Ht Hd.
  destruct (pack OFFER_STRUCT_FORMAT [MAGIC_COOKIE; MSG_TYPE_OFFER; udp; tcp])
    as [offer|] eqn:Hp.
  2:{ rewrite pack_offer in Hp; try assumption; try discriminate;
        unfold MAGIC_COOKIE, MSG_TYPE_OFFER; lia. }
  exists offer. split; [reflexivity|].
  unfold listen_for_offer. cbn [offer_loop]. rewrite Hd.
  unfold on_offer. rewrite calcsize_offer.
  rewrite (packed_size _ _ _ _ calcsize_offer Hp). cbn [Nat.leb].
  rewrite (unpack_pack _ _ _ Hp), !Z.eqb_refl. reflexivity.
Qed.

(** A datagram of at most 9 bytes that is not an offer is skipped. *)
Lemma invalid_datagram_skipped (start_time now : float) (data : list byte)
    (addr : address) (rest : list (float * recvfrom_event)) :
  (length data <= 9)%nat ->
  (forall ip u t, on_offer data addr <> Accept ip u t) ->
  float_gt (float_sub now start_time) lit_10 = false ->
  listen_for_offer start_time ((now, Datagram data addr) :: rest)
  = listen_for_offer start_time rest.
Proof.
  intros Hlen Hinv Hd. unfold listen_for_offer. cbn [offer_loop]. rewrite Hd.
  pose proof (on_offer_cases data addr) as Hc.
  destruct (Nat.ltb_spec (length data) 9) as [Hlt|Hge].
  - rewrite Hc. reflexivity.
  - replace (length data) with 9%nat in Hc by lia. cbn [Nat.eqb] in Hc.
    destruct (on_offer data addr) as [ip u t| |] eqn:Ho.
    + exfalso. exact (Hinv ip u t eq_refl).
    + reflexivity.
    + destruct (_ && _) in Hc; discriminate.
Qed.

(** A datagram longer than 9 bytes makes [struct.unpack] raise, and the
    attempt returns [None] before its deadline. *)
Lemma oversized_datagram_fails (start_time now : float) (data : list byte)
    (addr : address) (rest : list (float * recvfrom_event)) :
  (9 < length data)%nat ->
  float_gt (float_sub now start_time) lit_10 = false ->
  listen_for_offer start_time ((now, Datagram data addr) :: rest)
  = ReceiveFailed.
Proof.
  intros Hlen Hd. unfold listen_for_offer. cbn [offer_loop]. rewrite Hd.
  rewrite on_offer_cases.
  destruct (Nat.ltb_spec (length data) 9); [lia|].
  destruct (Nat.eqb_spec (length data) 9); [lia|]. reflexivity.
Qed.

(** C2, where the code departs from it.  One second into the attempt a
    well-formed offer is returned at once.  When a 10-byte datagram arrives
    first (the same offer with one more byte, or ten zero bytes, whose
    cookie is wrong) the attempt returns [None] on the spot, nine seconds
    before its deadline, and the offer that follows is never read. *)
Theorem oversized_datagram_aborts_discovery :
  let offer := be_bytes 4 MAGIC_COOKIE ++ be_bytes 1 MSG_TYPE_OFFER
                 ++ be_bytes 2 50000 ++ be_bytes 2 50001 in
  let server := ("10.0.0.1"%string, 13117) in
  let t0 := nearest 0 in
  let t1 := nearest 1 in
  length offer = 9%nat /\
  float_gt (float_sub t1 t0) lit_10 = false /\
  listen_for_offer t0 [(t1, Datagram offer server)]
    = OfferFound "10.0.0.1" 50000 50001 /\
  listen_for_offer t0
    [(t1, Datagram (offer ++ [x00]) server); (t1, Datagram offer server)]
    = ReceiveFailed /\
  cookie_field (repeat x00 10) = Some 0 /\
  listen_for_offer t0
    [(t1, Datagram (repeat x00 10) server); (t1, Datagram offer server)]
    = ReceiveFailed /\
  returned ReceiveFailed = Some None /\
  listen_for_offer t0
    [(t1, Datagram (repeat x00 9) server); (t1, Datagram offer server)]
    = OfferFound "10.0.0.1" 50000 50001.
Proof. cbv zeta. repeat split; vm_compute; reflexivity. Qed.

(** C3, where the code departs from it.  The cookie [0xabcddcbb] is not
    the magic cookie.  A 13-byte datagram with it is dropped by the server
    without a trace, but the same datagram with one more byte makes
    [struct.unpack] raise in the server's listener, and the exception is
    caught and printed.  On the discovery port the 13-byte datagram, longer
    than an offer, makes [struct.unpack] raise as well: the attempt ends
    with [None] and the well-formed offer behind it, which would have been
    found, is never read. *)
Theorem cookie_mismatch_raises_when_oversized :
  let bad13 := be_bytes 4 0xabcddcbb ++ be_bytes 1 MSG_TYPE_REQUEST
                 ++ be_bytes 8 2500 in
  let bad14 := bad13 ++ [x00] in
  let offer := be_bytes 4 MAGIC_COOKIE ++ be_bytes 1 MSG_TYPE_OFFER
                 ++ be_bytes 2 50000 ++ be_bytes 2 50001 in
  let peer := ("10.0.0.7"%string, 40000) in
  let server := ("10.0.0.1"%string, 13117) in
  let t0 := nearest 0 in
  let t1 := nearest 1 in
  cookie_field bad13 = Some 0xabcddcbb /\
  cookie_field bad14 = Some 0xabcddcbb /\
  (0xabcddcbb =? MAGIC_COOKIE) = false /\
  length bad13 = 13%nat /\
  length bad14 = 14%nat /\
  Server.on_request bad13 peer = Server.Dropped /\
  Server.on_request bad14 peer = Server.LoggedError /\
  on_offer bad13 server = Fail /\
  float_gt (float_sub t1 t0) lit_10 = false /\
  listen_for_offer t0 [(t1, Datagram offer server)]
    = OfferFound "10.0.0.1" 50000 50001 /\
  listen_for_offer t0
    [(t1, Datagram bad13 server); (t1, Datagram offer server)]
    = ReceiveFailed /\
  returned ReceiveFailed = Some None.
Proof. cbv zeta. repeat split; vm_compute; reflexivity. Qed.

End Discovery.

(** ** The codec, from buffers to fields and back *)

Module CodecInverse.
Import Bytes Struct Constants Net Spec.
Import BytesFacts StructFacts WireFormat.

Lemma be_bytes_snoc (k : nat) (v : Z) :
  be_bytes (S k) v = be_bytes k (v / 256) ++ [byte_of_Z v].
Proof.
  revert v. induction k as [|k IH]; intros v.
  - cbn [be_bytes app]. change (2 ^ (8 * Z.of_nat 0)) with 1.
    rewrite Z.div_1_r. reflexivity.
  - change (be_bytes (S (S k)) v)
      with (byte_of_Z (v / 2 ^ (8 * Z.of_nat (S k))) :: be_bytes (S k) v).
    rewrite IH.
    change (be_bytes (S k) (v / 256))
      with (byte_of_Z (v / 256 / 2 ^ (8 * Z.of_nat k)) :: be_bytes k (v / 256)).
    cbn [app]. f_equal. f_equal.
    replace (8 * Z.of_nat (S k)) with (8 + 8 * Z.of_nat k) by lia.
    rewrite Z.pow_add_r by lia. change (2 ^ 8) with 256.
    rewrite Z.div_div; [reflexivity | lia | apply Z.pow_pos_nonneg; lia].
Qed.

Lemma be_value_snoc (bs : list byte) (b : byte) :
  be_value (bs ++ [b]) = be_value bs * 256 + Z_of_byte b.
Proof. unfold be_value. rewrite fold_left_app. reflexivity. Qed.

Lemma byte_of_Z_low (x : Z) (b : byte) :
  byte_of_Z (x * 256 + Z_of_byte b) = b.
Proof.
  rewrite <- (byte_of_Z_of_byte b) at 2. unfold byte_of_Z.
  rewrite Z.add_comm, Z_mod_plus_full. reflexivity.
Qed.

(** A buffer is the big-endian form of the number it denotes. *)
Lemma be_bytes_be_value (bs : list byte) :
  be_bytes (length bs) (be_value bs) = bs.
Proof.
  induction bs as [|b bs IH] using rev_ind; [reflexivity|].
  rewrite length_app, Nat.add_1_r, be_bytes_snoc, be_value_snoc.
  pose proof (Z_of_byte_range b) as Hb.
  rewrite byte_of_Z_low. f_equal.
  replace ((be_value bs * 256 + Z_of_byte b) / 256) with (be_value bs).
  - exact IH.
  - apply Z.div_unique with (r := Z_of_byte b); lia.
Qed.

Lemma pack_codes_split_fields (cs : list code) :
  forall bs,
    length bs = codes_size cs ->
    pack_codes cs (split_fields cs bs) = Some bs.
Proof.
  induction cs as [|c cs IH]; intros bs Hlen.
  - destruct bs; [reflexivity | discriminate].
  - cbn [codes_size fold_right] in Hlen. fold (codes_size cs) in Hlen.
    cbn [split_fields pack_codes].
    assert (Hf : length (firstn (code_size c) bs) = code_size c)
      by (rewrite length_firstn; lia).
    assert (Hr : in_range c (be_value (firstn (code_size c) bs)) = true).
    { apply in_range_bounds.
      pose proof (be_value_range (firstn (code_size c) bs)) as Hv.
      rewrite Hf in Hv. exact Hv. }
    rewrite Hr, IH by (rewrite length_skipn; lia).
    cbn [option_map]. f_equal.
    pose proof (be_bytes_be_value (firstn (code_size c) bs)) as Hbe.
    rewrite Hf in Hbe. rewrite Hbe.
    apply firstn_skipn.
Qed.

(** What [struct.unpack] reads, [struct.pack] writes back. *)
Lemma pack_unpack (fmt : string) (bs : list byte) (vs : list Z) :
  unpack fmt bs = Some vs -> pack fmt vs = Some bs.
Proof.
  unfold unpack, pack. destruct (parse_format fmt) as [cs|]; [|discriminate].
  destruct (Nat.eqb_spec (length bs) (codes_size cs)) as [Hlen|];
    [|discriminate].
  intros H. inversion H; subst vs. apply pack_codes_split_fields, Hlen.
Qed.

(** X1. For every format of the protocol, packing and unpacking are inverse
    to each other: a buffer unpacks to a list of fields exactly when packing
    these fields gives that buffer.  So two messages with different fields
    never share their bytes, and every buffer of the right size is the
    packing of the fields read from it. *)
Theorem struct_codec_inverse (fmt : string) (vs : list Z) (bs : list byte) :
  pack fmt vs = Some bs <-> unpack fmt bs = Some vs.
Proof. split; [apply unpack_pack | apply pack_unpack]. Qed.

End CodecInverse.

(** ** From a client's request to the server's segments *)

Module RequestPath.
Import Bytes Struct Constants Net Spec.
Import BytesFacts StructFacts WireFormat Segmenter CodecInverse.
Import Server.

Lemma pack_codes_in_range (cs : list code) :
  forall vs bs,
    pack_codes cs vs = Some bs ->
    Forall2 (fun c v => in_range c v = true) cs vs.
Proof.
  induction cs as [|c cs IH]; intros [|v vs] bs Hp; simpl in Hp;
    try discriminate.
  - constructor.
  - destruct (in_range c v) eqn:Hr; [|discriminate].
    destruct (pack_codes cs vs) as [tl|] eqn:Htl; [|discriminate].
    constructor; [exact Hr | exact (IH vs tl Htl)].
Qed.

Lemma request_packet_range (n : Z) (data : list byte) :
  Client.request_packet n = Some data -> 0 <= n < 2 ^ 64.
Proof.
  unfold Client.request_packet, pack. rewrite request_format. intros Hp.
  apply pack_codes_in_range in Hp.
  inversion Hp as [|? ? ? ? _ Hp1]; subst.
  inversion Hp1 as [|? ? ? ? _ Hp2]; subst.
  inversion Hp2 as [|? ? ? ? Hn _]; subst.
  apply in_range_bounds in Hn. exact Hn.
Qed.

(** The server takes a datagram for a request exactly when it is the packet
    a client builds for some size. *)
Lemma on_request_spawn (data : list byte) (addr a : address) (n : Z) :
  on_request data addr = SpawnTransfer a n <->
  a = addr /\ Client.request_packet n = Some data.
Proof.
  split.
  - unfold on_request. rewrite calcsize_request.
    destruct (13 <=? length data)%nat; [|discriminate].
    destruct (unpack REQUEST_STRUCT_FORMAT data)
      as [[|mc [|mt [|fs [|? ?]]]]|] eqn:Hu; try discriminate.
    destruct (Z.eqb_spec mc MAGIC_COOKIE) as [Hmc|]; [|discriminate].
    destruct (Z.eqb_spec mt MSG_TYPE_REQUEST) as [Hmt|]; [|discriminate].
    cbn [andb]. intros H. inversion H; subst.
    split; [reflexivity|].
    unfold Client.request_packet. apply pack_unpack. exact Hu.
  - intros [-> Hp]. unfold Client.request_packet in Hp.
    unfold on_request. rewrite calcsize_request.
    rewrite (packed_size _ _ _ _ calcsize_request Hp). cbn [Nat.leb].
    rewrite (unpack_pack _ _ _ Hp), !Z.eqb_refl. reflexivity.
Qed.

Lemma listen_spawned (evs : list recvfrom_event) (a : address) (n : Z) :
  In (a, n) (listen_udp_requests evs) ->
  exists data, In (Datagram data a) evs /\ on_request data a = SpawnTransfer a n.
Proof.
  induction evs as [|ev evs IH]; [intros []|].
  cbn [listen_udp_requests].
  destruct (udp_step ev) as [a' n'| | |] eqn:Hs.
  - intros [E|Hin].
    + inversion E; subst a' n'.
      destruct ev as [data addr| | |]; cbn [udp_step] in Hs; try discriminate.
      pose proof (proj1 (on_request_spawn data addr a n) Hs) as [-> _].
      exists data. split; [left; reflexivity | exact Hs].
    + destruct (IH Hin) as (data & Hd & Ho).
      exists data. split; [right; exact Hd | exact Ho].
  - intros Hin. destruct (IH Hin) as (data & Hd & Ho).
    exists data. split; [right; exact Hd | exact Ho].
  - intros Hin. destruct (IH Hin) as (data & Hd & Ho).
    exists data. split; [right; exact Hd | exact Ho].
  - intros [].
Qed.

Lemma listen_complete (evs : list recvfrom_event) (a : address) (n : Z)
    (data : list byte) :
  ~ In Interrupt evs ->
  In (Datagram data a) evs ->
  on_request data a = SpawnTransfer a n ->
  In (a, n) (listen_udp_requests evs).
Proof.
  induction evs as [|ev evs IH]; intros Hni Hin Ho; [destruct Hin|].
  assert (Hni' : ~ In Interrupt evs) by (intros H; apply Hni; right; exact H).
  cbn [listen_udp_requests].
  destruct Hin as [->|Hin].
  - cbn [udp_step]. rewrite Ho. left. reflexivity.
  - specialize (IH Hni' Hin Ho).
    destruct (udp_step ev) as [a' n'| | |] eqn:Hs;
      [right; exact IH | exact IH | exact IH |].
    destruct ev as [d ad| | |]; cbn [udp_step] in Hs; try discriminate.
    + unfold on_request in Hs. rewrite calcsize_request in Hs.
      destruct (13 <=? length d)%nat; [|discriminate].
      destruct (unpack REQUEST_STRUCT_FORMAT d)
        as [[|mc [|mt [|fs [|? ?]]]]|]; try discriminate.
      destruct (_ && _); discriminate.
    + exfalso. apply Hni. left. reflexivity.
Qed.

(** X2. As long as nothing interrupts the loop, the server's UDP listener
    starts a transfer of size [n] towards address [a] exactly when it has
    received from [a] the 13-byte packet a client builds for the size [n]:
    no transfer without such a request, and none of them missed. *)
Theorem listener_serves_exactly_the_requests (evs : list recvfrom_event)
    (a : address) (n : Z) :
  ~ In Interrupt evs ->
  (In (a, n) (listen_udp_requests evs) <->
   exists data,
     In (Datagram data a) evs /\ Client.request_packet n = Some data).
Proof.
  intros Hni. split.
  - intros Hin. destruct (listen_spawned evs a n Hin) as (data & Hd & Ho).
    exists data. split; [exact Hd|].
    exact (proj2 (proj1 (on_request_spawn data a a n) Ho)).
  - intros (data & Hd & Hp).
    apply (listen_complete evs a n data Hni Hd).
    apply on_request_spawn. split; [reflexivity | exact Hp].
Qed.

Lemma listener_serves_exactly_the_requests_witness :
  In (("10.0.0.7"%string, 40000), 2500)
     (listen_udp_requests
        [SockTimeout;
         Datagram [x00] ("10.0.0.8"%string, 40001);
         Datagram (be_bytes 4 MAGIC_COOKIE ++ be_bytes 1 MSG_TYPE_REQUEST
                     ++ be_bytes 8 2500) ("10.0.0.7"%string, 40000)]) <->
  exists data,
    In (Datagram data ("10.0.0.7"%string, 40000))
       [SockTimeout;
        Datagram [x00] ("10.0.0.8"%string, 40001);
        Datagram (be_bytes 4 MAGIC_COOKIE ++ be_bytes 1 MSG_TYPE_REQUEST
                    ++ be_bytes 8 2500) ("10.0.0.7"%string, 40000)]
    /\ Client.request_packet 2500 = Some data.
Proof.
  apply (listener_serves_exactly_the_requests
           [SockTimeout;
            Datagram [x00] ("10.0.0.8"%string, 40001);
            Datagram (be_bytes 4 MAGIC_COOKIE ++ be_bytes 1 MSG_TYPE_REQUEST
                        ++ be_bytes 8 2500) ("10.0.0.7"%string, 40000)]
           ("10.0.0.7"%string, 40000) 2500).
  intros [H|[H|[H|[]]]]; discriminate.
Defined.

Lemma total_segments_range (n : Z) :
  0 <= n < 2 ^ 64 -> 0 <= total_segments n < 2 ^ 64.
Proof.
  intros Hn. unfold total_segments, UDP_PAYLOAD_SIZE.
  destruct (Z.eqb_spec (n mod 1024) 0);
    Z.to_euclidean_division_equations; lia.
Qed.

(** The loop of the segmenter, for any behaviour of [sendto]: the segments
    of the indices before the first failing one are sent, and no other. *)
Lemma send_segments_prefix (sendto_ok : Z -> bool) (file_size total : Z)
    (indices : list Z) :
  0 <= total < 2 ^ 64 ->
  (forall i, In i indices -> 0 <= i < total) ->
  exists pre post,
    indices = pre ++ post /\
    fst (send_segments sendto_ok file_size total indices)
      = map (segment file_size total) pre /\
    (forall i, In i pre -> sendto_ok i = true) /\
    ((snd (send_segments sendto_ok file_size total indices) = Completed
      /\ post = []) \/
     (snd (send_segments sendto_ok file_size total indices) = SendFailed
      /\ exists k post', post = k :: post' /\ sendto_ok k = false)).
Proof.
  intros Ht Hin.
  induction indices as [|i rest IH].
  - exists [], []. cbn. repeat split; auto.
  - assert (Hi : 0 <= i < total) by (apply Hin; left; reflexivity).
    cbn [send_segments]. rewrite payload_header_ok by lia.
    destruct (sendto_ok i) eqn:Hok.
    + destruct IH as (pre & post & E & Hs & Hall & Hst);
        [intros j Hj; apply Hin; right; exact Hj|].
      destruct (send_segments sendto_ok file_size total rest) as [sent st].
      cbn [fst snd] in *.
      exists (i :: pre), post. subst rest.
      split; [reflexivity|]. split; [|split].
      * cbn [map]. rewrite Hs. reflexivity.
      * intros j [<-|Hj]; [exact Hok | exact (Hall j Hj)].
      * exact Hst.
    + exists [], (i :: rest). cbn [fst snd map app].
      split; [reflexivity|]. split; [reflexivity|].
      split; [intros j []|].
      right. split; [reflexivity|]. exists i, rest. auto.
Qed.

Lemma firstn_seq_le (m n : nat) :
  (m <= n)%nat -> firstn m (seq 0 n) = seq 0 m.
Proof.
  intros Hmn. replace n with (m + (n - m))%nat by lia.
  rewrite seq_app, firstn_app, length_seq, Nat.sub_diag.
  rewrite <- (length_seq m 0) at 1. rewrite firstn_all. cbn [firstn].
  apply app_nil_r.
Qed.

Lemma range_split (n : Z) (pre post : list Z) (k : Z) :
  range n = pre ++ k :: post ->
  k = Z.of_nat (length pre) /\ pre = range k /\ 0 <= k < n.
Proof.
  intros E.
  assert (Hlen : (length pre < Z.to_nat n)%nat).
  { rewrite <- range_length, E, length_app. cbn [length]. lia. }
  assert (Hk : nth_error (range n) (length pre) = Some k).
  { rewrite E, nth_error_app2, Nat.sub_diag by lia. reflexivity. }
  unfold range in Hk. rewrite nth_error_map, nth_error_seq in Hk.
  destruct (Nat.ltb_spec (length pre) (Z.to_nat n)); [|lia].
  cbn in Hk. inversion Hk as [Hk']. clear Hk.
  split; [reflexivity|]. split; [|lia].
  assert (Hf : firstn (length pre) (range n) = pre).
  { rewrite E, firstn_app, Nat.sub_diag, firstn_all. cbn [firstn].
    apply app_nil_r. }
  rewrite <- Hf at 1. unfold range.
  rewrite firstn_map, firstn_seq_le, Nat2Z.id by lia.
  reflexivity.
Qed.

(** X3. Whatever size the UDP listener hands to a transfer, it lies in the
    range of the request's 64-bit field, and the segmenter started for it
    never fails to pack a header: it ends either at the end of its loop or
    at a send that failed. *)
Theorem spawned_transfer_never_crashes (evs : list recvfrom_event)
    (a : address) (n : Z) :
  In (a, n) (listen_udp_requests evs) ->
  0 <= n < 2 ^ 64 /\
  forall sendto_ok,
    snd (handle_udp_transfer sendto_ok n) = Completed \/
    snd (handle_udp_transfer sendto_ok n) = SendFailed.
Proof.
  intros Hin.
  destruct (listen_spawned evs a n Hin) as (data & _ & Ho).
  apply on_request_spawn in Ho. destruct Ho as [_ Hp].
  pose proof (request_packet_range n data Hp) as Hn.
  split; [exact Hn|].
  intros sendto_ok. unfold handle_udp_transfer.
  destruct (send_segments_prefix sendto_ok n (total_segments n)
              (range (total_segments n)) (total_segments_range n Hn))
    as (pre & post & _ & _ & _ & [[Hst _]|[Hst _]]).
  - intros i Hi. apply in_range_iff in Hi. exact Hi.
  - left. exact Hst.
  - right. exact Hst.
Qed.

Lemma spawned_transfer_never_crashes_witness :
  0 <= 2500 < 2 ^ 64 /\
  forall sendto_ok,
    snd (handle_udp_transfer sendto_ok 2500) = Completed \/
    snd (handle_udp_transfer sendto_ok 2500) = SendFailed.
Proof.
  apply (spawned_transfer_never_crashes
           [Datagram (be_bytes 4 MAGIC_COOKIE ++ be_bytes 1 MSG_TYPE_REQUEST
                        ++ be_bytes 8 2500) ("10.0.0.7"%string, 40000)]
           ("10.0.0.7"%string, 40000) 2500).
  vm_compute. left. reflexivity.
Defined.

(** X4. For a size in the range of the request field and any behaviour of
    the network, the server sends the segments 1, 2, ... in order up to the
    first send that fails and nothing after it: [k] segments are sent,
    every one of them as built for its index; the transfer is complete when
    [k] is the number of segments, and otherwise the send of segment
    [k + 1] is the one that failed. *)
Theorem segments_sent_until_first_failure (sendto_ok : Z -> bool)
    (file_size : Z) :
  0 <= file_size < 2 ^ 64 ->
  let total := total_segments file_size in
  let r := handle_udp_transfer sendto_ok file_size in
  exists k,
    0 <= k <= total /\
    fst r = map (segment file_size total) (range k) /\
    (forall i, 0 <= i < k -> sendto_ok i = true) /\
    ((snd r = Completed /\ k = total) \/
     (snd r = SendFailed /\ k < total /\ sendto_ok k = false)).
Proof.
  intros Hfs. cbv zeta. unfold handle_udp_transfer.
  pose proof (total_segments_range file_size Hfs) as Ht.
  set (total := total_segments file_size) in *.
  destruct (send_segments_prefix sendto_ok file_size total (range total) Ht)
    as (pre & post & E & Hs & Hall & Hst).
  { intros i Hi. apply in_range_iff in Hi. exact Hi. }
  destruct Hst as [[Hst ->]|[Hst (k & post' & -> & Hk)]].
  - rewrite app_nil_r in E. subst pre.
    exists total. split; [lia|]. split; [exact Hs|].
    split; [|left; auto].
    intros i Hi. apply Hall, in_range_iff. exact Hi.
  - destruct (range_split total pre post' k E) as (_ & Hpre & Hkr).
    subst pre. exists k. split; [lia|]. split; [exact Hs|].
    split; [|right; repeat split; [exact Hst | lia | exact Hk]].
    intros i Hi. apply Hall, in_range_iff. exact Hi.
Qed.

Lemma segments_sent_until_first_failure_witness :
  let total := total_segments 5000 in
  let r := handle_udp_transfer (fun i => i <? 2) 5000 in
  exists k,
    0 <= k <= total /\
    fst r = map (segment 5000 total) (range k) /\
    (forall i, 0 <= i < k -> (fun i => i <? 2) i = true) /\
    ((snd r = Completed /\ k = total) \/
     (snd r = SendFailed /\ k < total /\ (fun i => i <? 2) k = false)).
Proof.
  apply (segments_sent_until_first_failure (fun i => i <? 2) 5000). lia.
Defined.

(** In the run of the witness two of the five segments go out. *)
Example two_of_five_segments :
  map payload_len (fst (handle_udp_transfer (fun i => i <? 2) 5000))
    = [1024; 1024] /\
  snd (handle_udp_transfer (fun i => i <? 2) 5000) = SendFailed.
Proof. split; vm_compute; reflexivity. Qed.

End RequestPath.

(** ** From the server's broadcast to the client's discovery *)

Module OfferPath.
Import Bytes Struct Constants Net PyFloat Spec.
Import BytesFacts StructFacts WireFormat CodecInverse RequestPath.
Import Client.

(** The client takes a datagram for an offer exactly when it is the packet
    a server builds for some pair of ports. *)
Lemma on_offer_accept (data : list byte) (addr : address) (ip : string)
    (u t : Z) :
  on_offer data addr = Accept ip u t <->
  ip = fst addr /\
  pack OFFER_STRUCT_FORMAT [MAGIC_COOKIE; MSG_TYPE_OFFER; u; t] = Some data.
Proof.
  split.
  - unfold on_offer. rewrite calcsize_offer.
    destruct (9 <=? length data)%nat; [|discriminate].
    destruct (unpack OFFER_STRUCT_FORMAT data)
      as [[|mc [|mt [|pu [|pt [|? ?]]]]]|] eqn:Hu; try discriminate.
    destruct (Z.eqb_spec mc MAGIC_COOKIE) as [Hmc|]; [|discriminate].
    destruct (Z.eqb_spec mt MSG_TYPE_OFFER) as [Hmt|]; [|discriminate].
    cbn [andb]. intros H. inversion H; subst.
    split; [reflexivity|]. apply pack_unpack. exact Hu.
  - intros [-> Hp].
    unfold on_offer. rewrite calcsize_offer.
    rewrite (packed_size _ _ _ _ calcsize_offer Hp). cbn [Nat.leb].
    rewrite (unpack_pack _ _ _ Hp), !Z.eqb_refl. reflexivity.
Qed.

Lemma offer_ports_range (u t : Z) (data : list byte) :
  pack OFFER_STRUCT_FORMAT [MAGIC_COOKIE; MSG_TYPE_OFFER; u; t] = Some data ->
  0 <= u < 2 ^ 16 /\ 0 <= t < 2 ^ 16.
Proof.
  unfold pack. rewrite offer_format. intros Hp.
  apply pack_codes_in_range in Hp.
  inversion Hp as [|? ? ? ? _ Hp1]; subst.
  inversion Hp1 as [|? ? ? ? _ Hp2]; subst.
  inversion Hp2 as [|? ? ? ? Hu Hp3]; subst.
  inversion Hp3 as [|? ? ? ? Ht _]; subst.
  apply in_range_bounds in Hu. apply in_range_bounds in Ht. auto.
Qed.

(** X5. A discovery attempt never makes an offer up.  When it returns a
    server, the trace holds a datagram, read before the 10-second deadline
    with nothing before it having ended the attempt, that is byte for byte
    the offer a server packs for the two returned ports; the returned host
    is the sender of that datagram, and both ports lie between 0 and
    65535. *)
Theorem discovery_returns_a_received_offer (start_time : float)
    (trace : list (float * recvfrom_event)) (ip : string) (u t : Z) :
  listen_for_offer start_time trace = OfferFound ip u t ->
  exists pre now data addr post,
    trace = pre ++ (now, Datagram data addr) :: post /\
    listen_for_offer start_time pre = Listening /\
    float_gt (float_sub now start_time) lit_10 = false /\
    fst addr = ip /\
    pack OFFER_STRUCT_FORMAT [MAGIC_COOKIE; MSG_TYPE_OFFER; u; t] = Some data /\
    0 <= u < 2 ^ 16 /\ 0 <= t < 2 ^ 16.
Proof.
  unfold listen_for_offer.
  induction trace as [|[now ev] rest IH]; [discriminate|].
  cbn [offer_loop].
  destruct (float_gt (float_sub now start_time) lit_10) eqn:Hd;
    [discriminate|].
  assert (Hlater :
    offer_loop start_time rest = OfferFound ip u t ->
    offer_loop start_time [(now, ev)] = Listening ->
    exists pre now0 data addr post,
      (now, ev) :: rest = pre ++ (now0, Datagram data addr) :: post /\
      offer_loop start_time pre = Listening /\
      float_gt (float_sub now0 start_time) lit_10 = false /\
      fst addr = ip /\
      pack OFFER_STRUCT_FORMAT [MAGIC_COOKIE; MSG_TYPE_OFFER; u; t]
        = Some data /\
      0 <= u < 2 ^ 16 /\ 0 <= t < 2 ^ 16).
  { intros Hrest Hone.
    destruct (IH Hrest)
      as (pre & now0 & data & addr & post & E & Hpre & Hn & Ha & Hp & Hr).
    exists ((now, ev) :: pre), now0, data, addr, post. subst rest.
    split; [reflexivity|]. split; [|auto].
    cbn [offer_loop] in Hone |- *. rewrite Hd in Hone |- *.
    destruct ev as [d a| | |]; try discriminate; [|exact Hpre].
    destruct (on_offer d a); try discriminate. exact Hpre. }
  destruct ev as [data addr| | |]; try discriminate.
  - destruct (on_offer data addr) as [ip' u' t'| |] eqn:Ho; try discriminate.
    + intros H. inversion H; subst ip' u' t'.
      apply on_offer_accept in Ho. destruct Ho as [-> Hp].
      exists [], now, data, addr, rest.
      repeat split; try reflexivity; try assumption;
        apply (offer_ports_range u t data Hp).
    + intros H. apply (Hlater H). cbn [offer_loop]. rewrite Hd, Ho.
      reflexivity.
  - intros H. apply (Hlater H). cbn [offer_loop]. rewrite Hd. reflexivity.
Qed.

Lemma discovery_returns_a_received_offer_witness :
  exists pre now data addr post,
    [(nearest 1, SockTimeout);
     (nearest 2,
      Datagram (be_bytes 4 MAGIC_COOKIE ++ be_bytes 1 MSG_TYPE_OFFER
                  ++ be_bytes 2 50000 ++ be_bytes 2 50001)
               ("10.0.0.1"%string, 13117))]
    = pre ++ (now, Datagram data addr) :: post /\
    listen_for_offer (nearest 0) pre = Listening /\
    float_gt (float_sub now (nearest 0)) lit_10 = false /\
    fst addr = "10.0.0.1"%string /\
    pack OFFER_STRUCT_FORMAT [MAGIC_COOKIE; MSG_TYPE_OFFER; 50000; 50001]
      = Some data /\
    0 <= 50000 < 2 ^ 16 /\ 0 <= 50001 < 2 ^ 16.
Proof.
  apply (discovery_returns_a_received_offer (nearest 0)
           [(nearest 1, SockTimeout);
            (nearest 2,
             Datagram (be_bytes 4 MAGIC_COOKIE ++ be_bytes 1 MSG_TYPE_OFFER
                         ++ be_bytes 2 50000 ++ be_bytes 2 50001)
                      ("10.0.0.1"%string, 13117))]
           "10.0.0.1"%string 50000 50001).
  vm_compute. reflexivity.
Defined.

Lemma broadcast_packet (udp tcp : Z) (ticks : list bool) (p : list byte) :
  In (Server.Broadcast p) (Server.broadcast_offers udp tcp ticks) ->
  pack OFFER_STRUCT_FORMAT [MAGIC_COOKIE; MSG_TYPE_OFFER; udp; tcp] = Some p.
Proof.
  unfold Server.broadcast_offers. rewrite in_map_iff.
  intros (ok & Hb & _). unfold Server.broadcast_once in Hb.
  destruct (pack OFFER_STRUCT_FORMAT _) as [q|]; [|discriminate].
  destruct ok; [|discriminate]. inversion Hb. reflexivity.
Qed.

(** X6. Every packet the server's broadcast loop sends is a 9-byte offer
    that a listening client accepts: read before the client's deadline, it
    ends the discovery at once with the sender's host and the very two
    ports the server advertises.  A send that fails costs that one packet
    only: the loop makes one attempt per interval, whatever failed before,
    and sends a packet at every interval whose send succeeds, unless a port
    does not fit 16 bits, in which case nothing is ever sent. *)
Theorem broadcast_is_discovered (udp tcp : Z) (ticks : list bool) :
  length (Server.broadcast_offers udp tcp ticks) = length ticks /\
  (forall p, In (Server.Broadcast p) (Server.broadcast_offers udp tcp ticks) ->
     length p = 9%nat /\
     forall start_time now addr rest,
       float_gt (float_sub now start_time) lit_10 = false ->
       listen_for_offer start_time ((now, Datagram p addr) :: rest)
         = OfferFound (fst addr) udp tcp) /\
  (0 <= udp < 2 ^ 16 -> 0 <= tcp < 2 ^ 16 ->
   exists p,
     Server.broadcast_offers udp tcp ticks
       = map (fun ok => if ok : bool then Server.Broadcast p
                        else Server.BroadcastError) ticks) /\
  (~ (0 <= udp < 2 ^ 16 /\ 0 <= tcp < 2 ^ 16) ->
   forall p, ~ In (Server.Broadcast p) (Server.broadcast_offers udp tcp ticks)).
Proof.
  split; [apply length_map|]. split; [|split].
  - intros p Hin. apply broadcast_packet in Hin.
    split; [exact (packed_size _ _ _ _ calcsize_offer Hin)|].
    intros start_time now addr rest Hd.
    unfold listen_for_offer. cbn [offer_loop]. rewrite Hd.
    rewrite (proj2 (on_offer_accept p addr (fst addr) udp tcp)
               (conj eq_refl Hin)).
    reflexivity.
  - intros Hu Ht. eexists. unfold Server.broadcast_offers.
    apply map_ext. intros ok. unfold Server.broadcast_once.
    rewrite pack_offer by
      (try assumption; unfold MAGIC_COOKIE, MSG_TYPE_OFFER; lia).
    reflexivity.
  - intros Hbad p Hin. apply Hbad.
    apply broadcast_packet in Hin. exact (offer_ports_range udp tcp p Hin).
Qed.

End OfferPath.

(** ** What the client's UDP loop has counted *)

Module UdpCounters.
Import Bytes Struct Constants Net PyFloat Spec.
Import BytesFacts StructFacts WireFormat Segmenter UdpReceiver Receivers.
Import QuietPeriod.
Import Client.

Lemma iteration_absorbs (st : udp_state) (now : float) (ev : recvfrom_event)
    (st' : udp_state) :
  udp_iteration st now ev = Continue st' ->
  st' = fold_left absorb (payload_arrivals [(now, ev)]) st.
Proof.
  destruct ev as [data addr| | |]; cbn [udp_iteration].
  - rewrite on_payload_eq. cbn [payload_arrivals flat_map snd fst app].
    destruct (is_payload_segment data); intros H; inversion H; reflexivity.
  - destruct (float_gt _ _); [discriminate|].
    intros H; inversion H; reflexivity.
  - discriminate.
  - discriminate.
Qed.

Lemma payload_arrivals_cons (e : float * recvfrom_event)
    (trace : list (float * recvfrom_event)) :
  payload_arrivals (e :: trace)
  = payload_arrivals [e] ++ payload_arrivals trace.
Proof.
  unfold payload_arrivals. cbn [flat_map]. rewrite app_nil_r. reflexivity.
Qed.

(** While it runs, the state of the loop is the initial state with the
    payload segments received so far absorbed one after the other. *)
Lemma receiving_state (trace : list (float * recvfrom_event)) :
  forall st st',
    udp_receive st trace = Receiving st' ->
    st' = fold_left absorb (payload_arrivals trace) st.
Proof.
  induction trace as [|[now ev] rest IH]; intros st st' Hrun.
  - inversion Hrun. reflexivity.
  - cbn [udp_receive] in Hrun.
    destruct (udp_iteration st now ev) as [st1| |] eqn:Hit; try discriminate.
    rewrite payload_arrivals_cons, fold_left_app.
    rewrite <- (iteration_absorbs _ _ _ _ Hit). apply IH, Hrun.
Qed.

Lemma absorbed_counts (arrivals : list (float * list byte)) :
  forall st,
    segments_received (fold_left absorb arrivals st)
      = segments_received st + Z.of_nat (length arrivals) /\
    total_bytes (fold_left absorb arrivals st)
      = total_bytes st + sumZ (map (fun a => payload_len (snd a)) arrivals).
Proof.
  induction arrivals as [|a arrivals IH]; intros st.
  - cbn. lia.
  - cbn [fold_left length map]. rewrite sumZ_cons.
    destruct (IH (absorb st a)) as [-> ->]. cbn [absorb segments_received
      total_bytes]. lia.
Qed.

Lemma absorbed_last (arrivals : list (float * list byte)) (a : float * list byte)
    (st : udp_state) :
  total_segments (fold_left absorb (arrivals ++ [a]) st)
    = declared_total (snd a) /\
  last_data_time (fold_left absorb (arrivals ++ [a]) st) = fst a.
Proof. rewrite fold_left_app. cbn. split; reflexivity. Qed.

(** X7. The counters of the client's UDP loop are exact.  At any moment of
    the loop, and when it ends for the datagrams before the timeout that
    ended it (the first one read more than the timeout after the last
    receipt), [segments_received] is the number of payload segments
    received since the start, [total_bytes] is the sum of their data
    lengths (the 21 header bytes left out of each), and after at least one
    of them [total_segments] and the time of last receipt are those of the
    latest; datagrams that are not payload segments and receive timeouts
    change nothing. *)
Theorem udp_counters_exact :
  (forall st trace st',
      udp_receive st trace = Receiving st' -> counted st st' trace) /\
  (forall st trace st',
      udp_receive st trace = Finished st' ->
      exists pre now post,
        trace = pre ++ (now, SockTimeout) :: post /\
        udp_receive st pre = Receiving st' /\
        float_gt (float_sub now (last_data_time st')) UDP_TRANSFER_TIMEOUT
          = true /\
        counted st st' pre).
Proof.
  assert (Hrec : forall st trace st',
             udp_receive st trace = Receiving st' -> counted st st' trace).
  { intros st trace st' Hrun. apply receiving_state in Hrun. subst st'.
    unfold counted.
    destruct (absorbed_counts (payload_arrivals trace) st) as [Hs Hb].
    split; [exact Hs|]. split; [exact Hb|]. split.
    - intros ->. split; reflexivity.
    - intros before a ->. apply absorbed_last. }
  split; [exact Hrec|].
  intros st trace st' Hfin.
  apply receive_finished in Hfin.
  destruct Hfin as (pre & now & post & E & Hpre & Hgt).
  exists pre, now, post.
  split; [exact E|]. split; [exact Hpre|]. split; [exact Hgt|].
  exact (Hrec _ _ _ Hpre).
Qed.

End UdpCounters.

(** ** A UDP transfer from end to end *)

Module UdpEndToEnd.
Import Bytes Struct Constants Net PyFloat Spec.
Import BytesFacts StructFacts WireFormat Segmenter UdpReceiver Receivers.
Import RequestPath UdpCounters.
Import Client.

Lemma sumZ_permutation (l l' : list Z) :
  Permutation l l' -> sumZ l = sumZ l'.
Proof.
  induction 1 as [|x l l' _ IH|x y l|l l' l'' _ IH1 _ IH2];
    rewrite ?sumZ_cons; lia.
Qed.

(** The client counts every segment the server builds, and reads from it
    the number of segments the server wrote. *)
Lemma segment_is_counted (file_size total i : Z) :
  0 <= total < 2 ^ 64 -> 0 <= i < total ->
  is_payload_segment (segment file_size total i) = true /\
  declared_total (segment file_size total i) = total.
Proof.
  intros Ht Hi.
  set (st := {| total_bytes := 0; total_segments := 0;
                segments_received := 0; last_data_time := lit_0_0 |}).
  assert (Hv : exists tb,
             on_payload st (segment file_size total i) lit_0_0 =
             Continue {| total_bytes := tb; total_segments := total;
                         segments_received := segments_received st + 1;
                         last_data_time := lit_0_0 |}).
  { destruct (on_payload_valid st total (i + 1)
                (repeat_byte "Y" (Server.data_this_segment file_size i))
                lit_0_0 Ht ltac:(lia)) as (h & Hh & Hv).
    rewrite payload_header_ok in Hh by lia. inversion Hh; subst h; clear Hh.
    eexists. exact Hv. }
  destruct Hv as [tb Hv].
  rewrite on_payload_eq in Hv.
  unfold declared_total.
  destruct (is_payload_segment (segment file_size total i)).
  - apply (f_equal (fun s => match s with
                             | Continue x => total_segments x
                             | _ => 0
                             end)) in Hv.
    cbn in Hv. auto.
  - apply (f_equal (fun s => match s with
                             | Continue x => segments_received x
                             | _ => 0
                             end)) in Hv.
    cbn in Hv. lia.
Qed.

Lemma arrivals_of_segments (delivered : list (float * list byte))
    (addr : address) :
  (forall d, In d (map snd delivered) -> is_payload_segment d = true) ->
  payload_arrivals
    (map (fun td => (fst td, Datagram (snd td) addr)) delivered)
  = delivered.
Proof.
  induction delivered as [|[t d] rest IH]; intros Hall; [reflexivity|].
  cbn [map]. rewrite payload_arrivals_cons, IH
    by (intros d' Hd'; apply Hall; right; exact Hd').
  cbn [payload_arrivals flat_map snd fst app].
  rewrite (Hall d) by (left; reflexivity). reflexivity.
Qed.

Lemma datagrams_keep_receiving (delivered : list (float * list byte))
    (addr : address) :
  forall st,
    exists st',
      udp_receive st
        (map (fun td => (fst td, Datagram (snd td) addr)) delivered)
      = Receiving st'.
Proof.
  induction delivered as [|[t d] rest IH]; intros st.
  - eexists. reflexivity.
  - cbn [map udp_receive udp_iteration fst snd].
    destruct (on_payload_continues st d t) as [st1 ->]. apply IH.
Qed.

Lemma udp_receive_app (trace more : list (float * recvfrom_event)) :
  forall st st1,
    udp_receive st trace = Receiving st1 ->
    udp_receive st (trace ++ more) = udp_receive st1 more.
Proof.
  induction trace as [|[now ev] rest IH]; intros st st1 Hrun.
  - inversion Hrun. reflexivity.
  - cbn [app udp_receive] in Hrun |- *.
    destruct (udp_iteration st now ev); try discriminate.
    apply IH, Hrun.
Qed.

(** X8. When every segment the server sends for a request of [file_size]
    bytes reaches the client, in any order, and the receive timeout that
    follows comes more than the 1-second timeout after each of them, the
    client's transfer ends with a report in which [total_bytes] is
    [file_size] and [segments_received] and [total_segments] are both the
    server's number of segments. *)
Theorem udp_transfer_end_to_end (file_size : Z)
    (delivered : list (float * list byte)) (addr : address)
    (start_time sent_time quiet_time end_time : float) :
  0 < file_size < 2 ^ 64 ->
  Permutation (map snd delivered)
    (fst (Server.handle_udp_transfer (fun _ => true) file_size)) ->
  (forall t, In t (map fst delivered) ->
     float_gt (float_sub quiet_time t) UDP_TRANSFER_TIMEOUT = true) ->
  exists r,
    handle_udp_transfer file_size true start_time sent_time
      (map (fun td => (fst td, Datagram (snd td) addr)) delivered
         ++ [(quiet_time, SockTimeout)])
      end_time
    = Reported r /\
    total_bytes (udp_final r) = file_size /\
    segments_received (udp_final r) = Server.total_segments file_size /\
    total_segments (udp_final r) = Server.total_segments file_size.
Proof.
  intros Hfs Hperm Hquiet.
  pose proof (total_segments_bounds file_size (proj1 Hfs)) as [_ Htot].
  cbv zeta in Htot.
  set (total := Server.total_segments file_size) in *.
  assert (Hsegs : fst (Server.handle_udp_transfer (fun _ => true) file_size)
                  = map (segment file_size total) (range total)).
  { unfold Server.handle_udp_transfer. fold total.
    rewrite send_segments_ok; [reflexivity | lia | | reflexivity].
    intros i Hi. apply in_range_iff in Hi. exact Hi. }
  rewrite Hsegs in Hperm.
  assert (Hin : forall d, In d (map snd delivered) ->
                  exists i, 0 <= i < total /\ d = segment file_size total i).
  { intros d Hd. apply (Permutation_in _ Hperm) in Hd.
    apply in_map_iff in Hd. destruct Hd as (i & <- & Hi).
    apply in_range_iff in Hi. exists i. auto. }
  assert (Hvalid : forall d, In d (map snd delivered) ->
                     is_payload_segment d = true).
  { intros d Hd. destruct (Hin d Hd) as (i & Hi & ->).
    apply segment_is_counted; lia. }
  set (evs := map (fun td => (fst td, Datagram (snd td) addr)) delivered).
  set (st0 := {| total_bytes := 0; total_segments := 0;
                 segments_received := 0; last_data_time := sent_time |}).
  destruct (datagrams_keep_receiving delivered addr st0) as [st1 Hrun].
  fold evs in Hrun.
  pose proof (receiving_state evs st0 st1 Hrun) as Hst1.
  unfold evs in Hst1. rewrite (arrivals_of_segments _ _ Hvalid) in Hst1.
  (* at least one segment was delivered *)
  assert (Hlen : length delivered = Z.to_nat total).
  { rewrite <- (length_map snd), (Permutation_length Hperm), length_map.
    apply range_length. }
  destruct (exists_last (l := delivered)) as (before & a & Hlast).
  { intros ->. cbn in Hlen. lia. }
  destruct (absorbed_last before a st0) as [Htotal Htime].
  rewrite <- Hlast, <- Hst1 in Htotal, Htime.
  destruct (absorbed_counts delivered st0) as [Hcount Hbytes].
  rewrite <- Hst1 in Hcount, Hbytes. cbn [st0 segments_received total_bytes]
    in Hcount, Hbytes.
  (* the timeout ends the loop *)
  assert (Hend : udp_receive st0 (evs ++ [(quiet_time, SockTimeout)])
                 = Finished st1).
  { rewrite (udp_receive_app _ _ _ _ Hrun).
    cbn [udp_receive udp_iteration]. rewrite Htime, Hquiet; [reflexivity|].
    rewrite Hlast, map_app. apply in_or_app. right. left. reflexivity. }
  unfold handle_udp_transfer, request_packet.
  rewrite pack_request
    by (try lia; unfold MAGIC_COOKIE, MSG_TYPE_REQUEST; lia).
  cbn [negb]. fold st0. fold evs. rewrite Hend.
  eexists. split; [reflexivity|]. cbn [udp_final].
  split; [|split].
  - rewrite Hbytes, Z.add_0_l, <- map_map.
    rewrite (sumZ_permutation _ _ (Permutation_map payload_len Hperm)).
    rewrite map_map.
    rewrite (map_ext _ _ (payload_len_segment file_size total)).
    apply sum_segments. lia.
  - rewrite Hcount, Hlen. lia.
  - rewrite Htotal.
    destruct (Hin (snd a)) as (i & Hi & ->).
    + rewrite Hlast, map_app. apply in_or_app. right. left. reflexivity.
    + apply segment_is_counted; lia.
Qed.

Lemma udp_transfer_end_to_end_witness :
  exists r,
    handle_udp_transfer 2500 true (nearest 0) (nearest 0)
      (map (fun td => (fst td, Datagram (snd td) ("10.0.0.1"%string, 50000)))
           (map (fun d => (nearest 1, d))
                (rev (fst (Server.handle_udp_transfer (fun _ => true) 2500))))
         ++ [(nearest 3, SockTimeout)])
      (nearest 3)
    = Reported r /\
    total_bytes (udp_final r) = 2500 /\
    segments_received (udp_final r) = Server.total_segments 2500 /\
    total_segments (udp_final r) = Server.total_segments 2500.
Proof.
  apply (udp_transfer_end_to_end 2500
           (map (fun d => (nearest 1, d))
                (rev (fst (Server.handle_udp_transfer (fun _ => true) 2500))))
           ("10.0.0.1"%string, 50000)
           (nearest 0) (nearest 0) (nearest 3) (nearest 3)).
  - lia.
  - rewrite map_map. cbn [snd]. rewrite map_id.
    apply Permutation_sym, Permutation_rev.
  - intros t Ht. rewrite map_map in Ht. cbn [fst] in Ht.
    apply in_map_iff in Ht. destruct Ht as (d & <- & _).
    vm_compute. reflexivity.
Defined.

End UdpEndToEnd.

(** ** A TCP transfer from end to end *)

Module TcpEndToEnd.
Import Bytes Struct Constants Net PyFloat Spec.
Import BytesFacts Segmenter TcpServer.

Lemma tcp_receive_stop (file_size received : Z) (trace : list recv_event) :
  file_size <= received ->
  Client.tcp_receive file_size received trace = Some received.
Proof.
  intros H. destruct trace; cbn [Client.tcp_receive];
    destruct (Z.ltb_spec received file_size); try lia; reflexivity.
Qed.

Lemma tcp_receive_chunk (file_size received : Z) (c : list byte)
    (trace : list recv_event) :
  received < file_size -> c <> [] ->
  Client.tcp_receive file_size received (Chunk c :: trace)
  = Client.tcp_receive file_size (received + len c) trace.
Proof.
  intros H Hc. cbn [Client.tcp_receive].
  destruct (Z.ltb_spec received file_size); [|lia].
  destruct c; [contradiction | reflexivity].
Qed.

Lemma len_positive (c : list byte) : c <> [] -> 0 < len c.
Proof. destruct c; [contradiction|]. intros _. unfold len. cbn. lia. Qed.

Lemma sumZ_len_nonneg (chunks : list (list byte)) :
  0 <= sumZ (map len chunks).
Proof.
  induction chunks as [|c cs IH]; cbn [map]; rewrite ?sumZ_cons;
    unfold len in *; cbn; lia.
Qed.

(** The stream arrives whole, however it is cut into chunks. *)
Lemma tcp_receive_whole (file_size : Z) (chunks : list (list byte))
    (rest : list recv_event) :
  forall received,
    Forall (fun c => c <> []) chunks ->
    received + sumZ (map len chunks) = file_size ->
    Client.tcp_receive file_size received (map Chunk chunks ++ rest)
    = Some file_size.
Proof.
  induction chunks as [|c cs IH]; intros received Hne Hsum.
  - cbn in Hsum. cbn [map app]. rewrite tcp_receive_stop by lia.
    f_equal. lia.
  - pose proof (Forall_inv Hne) as Hc. pose proof (Forall_inv_tail Hne) as Hcs.
    cbn [map] in Hsum. rewrite sumZ_cons in Hsum.
    pose proof (len_positive c Hc). pose proof (sumZ_len_nonneg cs).
    cbn [map app]. rewrite tcp_receive_chunk by (assumption || lia).
    apply IH; [assumption | lia].
Qed.

(** The stream is cut short: what arrived before is what is counted. *)
Lemma tcp_receive_cut (file_size : Z) (chunks : list (list byte))
    (ender : recv_event) (rest : list recv_event) :
  forall received,
    Forall (fun c => c <> []) chunks ->
    received + sumZ (map len chunks) < file_size ->
    ender = Closed \/ ender = RecvError \/ ender = Chunk [] ->
    Client.tcp_receive file_size received (map Chunk chunks ++ ender :: rest)
    = Some (received + sumZ (map len chunks)).
Proof.
  induction chunks as [|c cs IH]; intros received Hne Hsum Hend.
  - cbn in Hsum |- *. destruct (Z.ltb_spec received file_size); [|lia].
    rewrite Z.add_0_r.
    destruct Hend as [-> | [-> | ->]]; reflexivity.
  - pose proof (Forall_inv Hne) as Hc. pose proof (Forall_inv_tail Hne) as Hcs.
    cbn [map] in Hsum |- *. rewrite sumZ_cons in Hsum |- *.
    pose proof (len_positive c Hc). pose proof (sumZ_len_nonneg cs).
    cbn [app]. rewrite tcp_receive_chunk by (assumption || lia).
    rewrite IH by (assumption || lia). f_equal. lia.
Qed.

Lemma tcp_receive_bound (file_size : Z) (trace : list recv_event) :
  forall received r,
    (forall c, In (Chunk c) trace -> len c <= TCP_RECEIVE_BUFFER_SIZE) ->
    0 <= received < Z.max 0 file_size + TCP_RECEIVE_BUFFER_SIZE ->
    Client.tcp_receive file_size received trace = Some r ->
    received <= r < Z.max 0 file_size + TCP_RECEIVE_BUFFER_SIZE.
Proof.
  induction trace as [|ev trace IH]; intros received r Hsz Hrec Hrun;
    cbn [Client.tcp_receive] in Hrun.
  - destruct (received <? file_size); inversion Hrun; subst; lia.
  - destruct (Z.ltb_spec received file_size) as [Hlt|Hge];
      [|inversion Hrun; subst; lia].
    destruct ev as [c| |]; try (inversion Hrun; subst; lia).
    destruct c as [|b c]; [inversion Hrun; subst; lia|].
    assert (Hc : len (b :: c) <= TCP_RECEIVE_BUFFER_SIZE)
      by (apply Hsz; left; reflexivity).
    assert (0 < len (b :: c)) by (apply len_positive; discriminate).
    apply IH in Hrun.
    + lia.
    + intros c' Hc'. apply Hsz. right. exact Hc'.
    + lia.
Qed.

(** X9. What the client's TCP receive loop counts.  If the chunks returned
    by [recv] add up to the requested size, the loop ends by itself with
    exactly that size, however the stream was cut into chunks and whatever
    comes after.  If the connection is closed, or [recv] fails, before the
    size is reached, the loop ends with the number of bytes that arrived
    before.  And with chunks of at most 4096 bytes, the count never reaches
    the requested size plus 4096. *)
Theorem tcp_receive_counts :
  (forall file_size chunks rest,
      Forall (fun c => c <> []) chunks ->
      sumZ (map len chunks) = file_size ->
      Client.tcp_receive file_size 0 (map Chunk chunks ++ rest)
      = Some file_size) /\
  (forall file_size chunks rest,
      Forall (fun c => c <> []) chunks ->
      sumZ (map len chunks) < file_size ->
      Client.tcp_receive file_size 0 (map Chunk chunks ++ Closed :: rest)
      = Some (sumZ (map len chunks)) /\
      Client.tcp_receive file_size 0 (map Chunk chunks ++ RecvError :: rest)
      = Some (sumZ (map len chunks))) /\
  (forall file_size trace r,
      (forall c, In (Chunk c) trace -> len c <= TCP_RECEIVE_BUFFER_SIZE) ->
      Client.tcp_receive file_size 0 trace = Some r ->
      0 <= r < Z.max 0 file_size + TCP_RECEIVE_BUFFER_SIZE).
Proof.
  split; [|split].
  - intros file_size chunks rest Hne Hsum.
    apply tcp_receive_whole; [assumption | lia].
  - intros file_size chunks rest Hne Hsum.
    split;
      rewrite (tcp_receive_cut file_size chunks _ rest 0 Hne) by (lia || auto);
      f_equal; lia.
  - intros file_size trace r Hsz Hrun.
    apply (tcp_receive_bound file_size trace 0 r Hsz); [|exact Hrun].
    unfold TCP_RECEIVE_BUFFER_SIZE. lia.
Qed.

Lemma lstrip_keeps (b : byte) (data : list byte) :
  Server.is_space b = false -> Server.lstrip (b :: data) = b :: data.
Proof. intros Hb. cbn [Server.lstrip]. rewrite Hb. reflexivity. Qed.

(** Text without white space, followed by the newline, strips to itself. *)
Lemma strip_line (text : list byte) :
  Forall (fun b => Server.is_space b = false) text ->
  Server.strip (text ++ [x0a]) = text.
Proof.
  intros Hns. unfold Server.strip.
  destruct text as [|b text].
  - reflexivity.
  - cbn [app]. rewrite lstrip_keeps by exact (Forall_inv Hns).
    change (b :: text ++ [x0a]) with ((b :: text) ++ [x0a]).
    rewrite rev_unit. cbn [Server.lstrip Server.is_space].
    apply Forall_rev in Hns.
    destruct (rev (b :: text)) as [|c tl] eqn:Hrev.
    + apply (f_equal (@length byte)) in Hrev. rewrite length_rev in Hrev.
      discriminate.
    + rewrite lstrip_keeps by exact (Forall_inv Hns).
      rewrite <- Hrev. apply rev_involutive.
Qed.

Lemma no_newline (text : list byte) :
  Forall (fun b => Server.is_space b = false) text -> ~ In x0a text.
Proof.
  intros Hns Hin. rewrite Forall_forall in Hns.
  specialize (Hns x0a Hin). discriminate.
Qed.

Lemma len_concat (chunks : list (list byte)) :
  len (concat chunks) = sumZ (map len chunks).
Proof.
  induction chunks as [|c cs IH]; [reflexivity|].
  cbn [concat map]. rewrite sumZ_cons, <- IH.
  unfold len. rewrite length_app. lia.
Qed.

Section Connection.

Variable decode : list byte -> option string.
Variable int : string -> option Z.

(** X11. Whatever arrives on a connection and whatever the network does to
    the answers, the server's TCP handler writes nothing but buffers of 1 to
    4096 filler bytes, writes them only once a size has been parsed, never
    writes more bytes in total than that size, and has closed the socket
    whenever it is no longer reading the request. *)
Theorem handler_writes_at_most_the_request (conn : list recv_event)
    (sendall_ok : nat -> bool) :
  let res := Server.handle_tcp_client decode int conn sendall_ok in
  (Server.outcome res <> Server.Reading -> Server.sock_closed res = true) /\
  (forall w, In w (Server.written res) ->
     exists n, w = repeat_byte "X" n /\ 0 < n <= 4096) /\
  (Server.written res = [] \/
   exists n st,
     Server.outcome res = Server.Served n st /\
     0 < sumZ (map len (Server.written res)) <= n).
Proof.
  cbv zeta. unfold Server.handle_tcp_client.
  destruct (Server.read_request conn []) as [data| | |];
    try (cbn; split; [auto | split; [intros w [] | left; reflexivity]]).
  - destruct (decode (Server.strip data)) as [size_str|];
      [|cbn; split; [auto | split; [intros w [] | left; reflexivity]]].
    destruct (int size_str) as [n|];
      [|cbn; split; [auto | split; [intros w [] | left; reflexivity]]].
    cbn [Server.outcome Server.written Server.sock_closed].
    destruct (send_tcp_data_facts sendall_ok n) as [Hc Hd He _ _].
    split; [reflexivity|]. split.
    + intros w Hw. apply In_nth_error in Hw. destruct Hw as [j Hj].
      destruct (Hc j w Hj) as [-> Hlt].
      eexists. split; [reflexivity|]. unfold Server.chunk_size in *. lia.
    + destruct (fst (Server.send_tcp_data sendall_ok n)) as [|w ws] eqn:Hw;
        [left; reflexivity|].
      right. exists n, (snd (Server.send_tcp_data sendall_ok n)).
      split; [reflexivity|].
      destruct (Hc 0%nat w eq_refl) as [Hw0 Hlt].
      assert (Hpos : 0 < len w).
      { rewrite Hw0, len_repeat_byte. unfold Server.chunk_size in *. lia. }
      pose proof (sumZ_len_nonneg ws) as Hws.
      cbn [map] in *. rewrite sumZ_cons in *.
      destruct (snd (Server.send_tcp_data sendall_ok n)).
      * specialize (Hd eq_refl). lia.
      * destruct (He eq_refl) as [_ He2]. lia.
Qed.

Variable str_bytes : Z -> list byte.

(** X10. A TCP transfer from end to end.  Take a size [file_size >= 0]
    whose decimal text has no white space and is read back by [decode] and
    [int] as that size, as Python's built-ins do.  The server, reading the
    client's request line byte by byte, parses that size and, when no send
    fails, writes exactly [file_size] bytes; and however the network cuts
    these bytes into chunks, the client's receive loop ends with
    [file_size] received, which is what its report shows. *)
Theorem tcp_transfer_end_to_end (file_size : Z) (rest : list recv_event) :
  0 <= file_size ->
  Forall (fun b => Server.is_space b = false) (str_bytes file_size) ->
  (exists size_str,
      decode (str_bytes file_size) = Some size_str /\
      int size_str = Some file_size) ->
  let res :=
    Server.handle_tcp_client decode int
      (one_by_one (Client.tcp_request str_bytes file_size) ++ rest)
      (fun _ => true) in
  Server.outcome res = Server.Served file_size Server.SendDone /\
  sumZ (map len (Server.written res)) = file_size /\
  forall chunks after start_time end_time,
    Forall (fun c => c <> []) chunks ->
    concat chunks = concat (Server.written res) ->
    exists report,
      Client.handle_tcp_transfer file_size true (map Chunk chunks ++ after)
        start_time end_time = Some report /\
      Client.tcp_received report = file_size.
Proof.
  intros Hfs Hns (size_str & Hdec & Hint). cbv zeta.
  unfold Server.handle_tcp_client, Client.tcp_request.
  rewrite (read_request_line (str_bytes file_size) rest [] eq_refl
             (no_newline _ Hns)).
  cbn [app]. rewrite (strip_line _ Hns), Hdec, Hint.
  cbn [Server.outcome Server.written].
  destruct (send_tcp_data_facts (fun _ => true) file_size)
    as [_ Hd _ _ Hne].
  specialize (Hne (fun _ => eq_refl)). specialize (Hd Hne).
  rewrite Hne. split; [reflexivity|].
  assert (Hsum : sumZ (map len (fst (Server.send_tcp_data (fun _ => true)
                                       file_size))) = file_size) by lia.
  split; [exact Hsum|].
  intros chunks after start_time end_time Hchunks Hcat.
  unfold Client.handle_tcp_transfer.
  rewrite tcp_receive_whole; [eexists; split; reflexivity | assumption |].
  rewrite Z.add_0_l, <- len_concat, Hcat, len_concat. exact Hsum.
Qed.

End Connection.

Lemma tcp_transfer_end_to_end_witness :
  let res :=
    Server.handle_tcp_client Builtins.decode Builtins.int
      (one_by_one
         (Client.tcp_request (fun _ => list_byte_of_string "5000") 5000)
         ++ [])
      (fun _ => true) in
  Server.outcome res = Server.Served 5000 Server.SendDone /\
  sumZ (map len (Server.written res)) = 5000 /\
  forall chunks after start_time end_time,
    Forall (fun c => c <> []) chunks ->
    concat chunks = concat (Server.written res) ->
    exists report,
      Client.handle_tcp_transfer 5000 true (map Chunk chunks ++ after)
        start_time end_time = Some report /\
      Client.tcp_received report = 5000.
Proof.
  apply (tcp_transfer_end_to_end Builtins.decode Builtins.int
           (fun _ => list_byte_of_string "5000") 5000 []).
  - lia.
  - repeat constructor.
  - exists "5000"%string. split; reflexivity.
Defined.

End TcpEndToEnd.

(** ** The client's parameters and the transfers it starts *)

Module ClientSetup.
Import Bytes Struct Constants Net PyFloat Spec.
Import StructFacts Segmenter RequestPath.
Import Client.

Lemma get_user_input_valid (int : string -> option Z) (n : nat) :
  forall answers fsize tcp_c udp_c,
    (length answers <= n)%nat ->
    get_user_input int answers = Some (fsize, tcp_c, udp_c) ->
    0 < fsize /\ 0 <= tcp_c /\ 0 <= udp_c /\
    exists before a1 a2 a3 after,
      answers = before ++ a1 :: a2 :: a3 :: after /\
      int a1 = Some fsize /\ int a2 = Some tcp_c /\ int a3 = Some udp_c.
Proof.
  induction n as [|n IH]; intros answers fsize tcp_c udp_c Hlen Hrun.
  - destruct answers; [discriminate | cbn in Hlen; lia].
  - assert (Hlater : forall skipped later,
              answers = skipped ++ later -> skipped <> [] ->
              get_user_input int later = Some (fsize, tcp_c, udp_c) ->
              0 < fsize /\ 0 <= tcp_c /\ 0 <= udp_c /\
              exists before a1 a2 a3 after,
                answers = before ++ a1 :: a2 :: a3 :: after /\
                int a1 = Some fsize /\ int a2 = Some tcp_c /\
                int a3 = Some udp_c).
    { intros skipped later E Hsk Hlat.
      assert (Hl : (length later <= n)%nat).
      { rewrite E, length_app in Hlen.
        destruct skipped; [contradiction | cbn in Hlen; lia]. }
      destruct (IH later fsize tcp_c udp_c Hl Hlat)
        as (Hf & Ht & Hu & before & a1 & a2 & a3 & after & E' & H1 & H2 & H3).
      repeat split; try assumption.
      exists (skipped ++ before), a1, a2, a3, after.
      rewrite E, E', <- app_assoc. auto. }
    destruct answers as [|a1 rest1]; [discriminate|].
    cbn [get_user_input] in Hrun.
    destruct (int a1) as [f|] eqn:H1.
    2:{ apply (Hlater [a1] rest1); [reflexivity | discriminate | exact Hrun]. }
    destruct rest1 as [|a2 rest2]; [discriminate|].
    destruct (int a2) as [t|] eqn:H2.
    2:{ apply (Hlater [a1; a2] rest2);
          [reflexivity | discriminate | exact Hrun]. }
    destruct rest2 as [|a3 rest3]; [discriminate|].
    destruct (int a3) as [u|] eqn:H3.
    2:{ apply (Hlater [a1; a2; a3] rest3);
          [reflexivity | discriminate | exact Hrun]. }
    destruct (Z.leb_spec f 0); cbn [orb] in Hrun.
    { apply (Hlater [a1; a2; a3] rest3);
        [reflexivity | discriminate | exact Hrun]. }
    destruct (Z.ltb_spec t 0); cbn [orb] in Hrun.
    { apply (Hlater [a1; a2; a3] rest3);
        [reflexivity | discriminate | exact Hrun]. }
    destruct (Z.ltb_spec u 0); cbn [orb] in Hrun.
    { apply (Hlater [a1; a2; a3] rest3);
        [reflexivity | discriminate | exact Hrun]. }
    inversion Hrun; subst f t u.
    repeat split; try lia.
    exists [], a1, a2, a3, rest3. auto.
Qed.

(** X12. Whatever is typed at the prompts, the parameters [get_user_input]
    returns are a file size above 0 and two connection counts of at least 0,
    and they are what [int] reads from three answers typed one after the
    other. *)
Theorem user_input_is_validated (int : string -> option Z)
    (answers : list string) (fsize tcp_c udp_c : Z) :
  get_user_input int answers = Some (fsize, tcp_c, udp_c) ->
  0 < fsize /\ 0 <= tcp_c /\ 0 <= udp_c /\
  exists before a1 a2 a3 after,
    answers = before ++ a1 :: a2 :: a3 :: after /\
    int a1 = Some fsize /\ int a2 = Some tcp_c /\ int a3 = Some udp_c.
Proof.
  apply (get_user_input_valid int (length answers)). lia.
Qed.

Lemma user_input_is_validated_witness :
  0 < 5000 /\ 0 <= 1 /\ 0 <= 2 /\
  exists before a1 a2 a3 after,
    ["abc"; "0"; "1"; "1"; "5000"; "1"; "2"; "9"]%string
      = before ++ a1 :: a2 :: a3 :: after /\
    Builtins.int a1 = Some 5000 /\ Builtins.int a2 = Some 1 /\
    Builtins.int a3 = Some 2.
Proof.
  apply (user_input_is_validated Builtins.int
           ["abc"; "0"; "1"; "1"; "5000"; "1"; "2"; "9"]%string 5000 1 2).
  vm_compute. reflexivity.
Defined.

(** X13. The input check has no upper bound, but the request packet has: a
    file size of 2^64 or more, typed with valid counts, is accepted by
    [get_user_input], and every UDP transfer started for it dies when it
    packs its request, before anything is sent or reported. *)
Theorem size_beyond_the_request_field (int : string -> option Z)
    (a1 a2 a3 : string) (rest : list string) (fsize tcp_c udp_c : Z) :
  int a1 = Some fsize -> int a2 = Some tcp_c -> int a3 = Some udp_c ->
  2 ^ 64 <= fsize -> 0 <= tcp_c -> 0 <= udp_c ->
  get_user_input int (a1 :: a2 :: a3 :: rest) = Some (fsize, tcp_c, udp_c) /\
  request_packet fsize = None /\
  forall request_sent start_time sent_time trace end_time,
    handle_udp_transfer fsize request_sent start_time sent_time trace end_time
    = ThreadDied.
Proof.
  intros H1 H2 H3 Hbig Ht Hu.
  assert (Hp : request_packet fsize = None).
  { destruct (request_packet fsize) as [data|] eqn:Hp; [|reflexivity].
    apply request_packet_range in Hp. lia. }
  split; [|split; [exact Hp|]].
  - cbn [get_user_input]. rewrite H1, H2, H3.
    destruct (Z.leb_spec fsize 0); [lia|].
    destruct (Z.ltb_spec tcp_c 0); [lia|].
    destruct (Z.ltb_spec udp_c 0); [lia|]. reflexivity.
  - intros. unfold handle_udp_transfer. rewrite Hp. reflexivity.
Qed.

Lemma size_beyond_the_request_field_witness :
  get_user_input Builtins.int
    ["18446744073709551616"; "0"; "1"]%string
    = Some (18446744073709551616, 0, 1) /\
  request_packet 18446744073709551616 = None /\
  forall request_sent start_time sent_time trace end_time,
    handle_udp_transfer 18446744073709551616 request_sent start_time
      sent_time trace end_time
    = ThreadDied.
Proof.
  apply (size_beyond_the_request_field Builtins.int
           "18446744073709551616"%string "0"%string "1"%string []
           18446744073709551616 0 1);
    try (vm_compute; reflexivity); lia.
Defined.

(** X14. For the counts [tcp_count] and [udp_count], [start_speed_test]
    starts one TCP transfer for each index from 1 to [tcp_count] and one UDP
    transfer for each index from 1 to [udp_count], no other and each once;
    for a count of 0 or less, none. *)
Theorem transfers_started (tcp_count udp_count : Z) :
  let jobs := start_speed_test tcp_count udp_count in
  Z.of_nat (length jobs) = Z.max 0 tcp_count + Z.max 0 udp_count /\
  (forall i, In (TcpJob i) jobs <-> 1 <= i <= tcp_count) /\
  (forall i, In (UdpJob i) jobs <-> 1 <= i <= udp_count) /\
  NoDup jobs.
Proof.
  cbv zeta. unfold start_speed_test.
  assert (Htcp : forall n i,
             In (TcpJob i) (map (fun k => TcpJob (k + 1)) (range n))
             <-> 1 <= i <= n).
  { intros n i. rewrite in_map_iff. split.
    - intros (k & E & Hk). inversion E; subst. apply in_range_iff in Hk. lia.
    - intros Hi. exists (i - 1). split; [f_equal; lia|].
      apply in_range_iff. lia. }
  assert (Hudp : forall n i,
             In (UdpJob i) (map (fun k => UdpJob (k + 1)) (range n))
             <-> 1 <= i <= n).
  { intros n i. rewrite in_map_iff. split.
    - intros (k & E & Hk). inversion E; subst. apply in_range_iff in Hk. lia.
    - intros Hi. exists (i - 1). split; [f_equal; lia|].
      apply in_range_iff. lia. }
  assert (Hnt : forall n i,
             ~ In (TcpJob i) (map (fun k => UdpJob (k + 1)) (range n))).
  { intros n i Hin. apply in_map_iff in Hin.
    destruct Hin as (k & E & _). discriminate. }
  assert (Hnu : forall n i,
             ~ In (UdpJob i) (map (fun k => TcpJob (k + 1)) (range n))).
  { intros n i Hin. apply in_map_iff in Hin.
    destruct Hin as (k & E & _). discriminate. }
  assert (Hnd : forall n, NoDup (range n)).
  { intros n. unfold range. apply Finite.Injective_map_NoDup.
    - intros x y Hxy. lia.
    - apply seq_NoDup. }
  split; [|split; [|split]].
  - rewrite length_app, !length_map, !range_length. lia.
  - intros i. rewrite in_app_iff, Htcp. split; [|auto].
    intros [H|H]; [exact H | destruct (Hnt _ _ H)].
  - intros i. rewrite in_app_iff, Hudp. split; [|auto].
    intros [H|H]; [destruct (Hnu _ _ H) | exact H].
  - apply NoDup_app.
    + apply Finite.Injective_map_NoDup; [|apply Hnd].
      intros x y E. inversion E. lia.
    + apply Finite.Injective_map_NoDup; [|apply Hnd].
      intros x y E. inversion E. lia.
    + intros [i|i] H1 H2;
        [destruct (Hnt _ _ H2) | destruct (Hnu _ _ H1)].
Qed.

End ClientSetup.

(** ** How a discovery attempt can end *)

Module DiscoveryEnds.
Import Bytes Struct Constants Net PyFloat Spec.
Import StructFacts WireFormat Receivers.
Import Client.

Lemma on_offer_fail (data : list byte) (addr : address) :
  on_offer data addr = Fail <-> (9 < length data)%nat.
Proof.
  rewrite on_offer_cases.
  destruct (Nat.ltb_spec (length data) 9) as [Hlt|Hge].
  - split; [discriminate | lia].
  - destruct (Nat.eqb_spec (length data) 9) as [E|Hne].
    + split; [|lia]. destruct (_ && _); discriminate.
    + split; [lia | reflexivity].
Qed.

Lemma offer_loop_cons (start_time now : float) (ev : recvfrom_event)
    (rest : list (float * recvfrom_event)) :
  offer_loop start_time ((now, ev) :: rest) =
  match offer_loop start_time [(now, ev)] with
  | Listening => offer_loop start_time rest
  | r => r
  end.
Proof.
  cbn [offer_loop]. destruct (float_gt _ _); [reflexivity|].
  destruct ev as [d a| | |]; try reflexivity.
  destruct (on_offer d a); reflexivity.
Qed.

(** An attempt ends the way its first ending iteration does. *)
Lemma offer_loop_first_end (start_time : float) (r : offer_result)
    (trace : list (float * recvfrom_event)) :
  r <> Listening ->
  (offer_loop start_time trace = r <->
   exists pre now ev post,
     trace = pre ++ (now, ev) :: post /\
     offer_loop start_time pre = Listening /\
     offer_loop start_time [(now, ev)] = r).
Proof.
  intros Hr. induction trace as [|[now ev] rest IH].
  - split.
    + intros H. cbn in H. congruence.
    + intros (pre & n & e & post & E & _). destruct pre; discriminate.
  - rewrite offer_loop_cons.
    destruct (offer_loop start_time [(now, ev)]) as [ip u t| | | |] eqn:Hone.
    5:{ rewrite IH. split.
        - intros (pre & n & e & post & E & Hpre & Hend).
          exists ((now, ev) :: pre), n, e, post. subst rest.
          split; [reflexivity|]. split; [|exact Hend].
          rewrite offer_loop_cons, Hone. exact Hpre.
        - intros (pre & n & e & post & E & Hpre & Hend).
          destruct pre as [|p pre]; cbn [app] in E.
          + injection E as E1 E2 E3. subst n e post. congruence.
          + injection E as E1 E2. subst p rest.
            exists pre, n, e, post. split; [reflexivity|].
            split; [|exact Hend].
            rewrite offer_loop_cons, Hone in Hpre. exact Hpre. }
    all: split;
      [ intros <-; exists [], now, ev, rest; auto
      | intros (pre & n & e & post & E & Hpre & Hend);
        destruct pre as [|p pre]; cbn [app] in E;
        [ injection E as E1 E2 E3; subst n e post; congruence
        | injection E as E1 E2; subst p rest;
          rewrite offer_loop_cons, Hone in Hpre; discriminate ] ].
Qed.

Lemma single_receive_failed (start_time now : float) (ev : recvfrom_event) :
  offer_loop start_time [(now, ev)] = ReceiveFailed <->
  float_gt (float_sub now start_time) lit_10 = false /\
  (ev = OtherError \/
   exists data addr, ev = Datagram data addr /\ (9 < length data)%nat).
Proof.
  cbn [offer_loop]. destruct (float_gt _ _).
  - split; [discriminate | intros [H _]; discriminate].
  - destruct ev as [d a| | |].
    + pose proof (on_offer_fail d a) as Hf.
      destruct (on_offer d a) as [ip u t| |].
      * split; [discriminate|].
        intros [_ [H|(d' & a' & E & Hlen)]]; [discriminate|].
        inversion E; subst. apply Hf in Hlen. discriminate.
      * split; [discriminate|].
        intros [_ [H|(d' & a' & E & Hlen)]]; [discriminate|].
        inversion E; subst. apply Hf in Hlen. discriminate.
      * split; [|reflexivity]. intros _. split; [reflexivity|].
        right. exists d, a. split; [reflexivity | apply Hf; reflexivity].
    + split; [discriminate|].
      intros [_ [H|(d' & a' & E & _)]]; discriminate.
    + split; [discriminate|].
      intros [_ [H|(d' & a' & E & _)]]; discriminate.
    + split; [|reflexivity]. intros _. split; [reflexivity | left; reflexivity].
Qed.

Lemma single_deadline (start_time now : float) (ev : recvfrom_event) :
  offer_loop start_time [(now, ev)] = DeadlineElapsed <->
  float_gt (float_sub now start_time) lit_10 = true.
Proof.
  cbn [offer_loop]. destruct (float_gt _ _).
  - split; reflexivity.
  - split; [|discriminate].
    destruct ev as [d a| | |]; try discriminate.
    destruct (on_offer d a); discriminate.
Qed.

(** X15. A discovery attempt returns [None] before its deadline in two
    cases only: [recvfrom] raised something other than a timeout, or it
    returned a datagram of more than 9 bytes, on which unpacking raises.
    The attempt ends so at the first such event read before the deadline,
    if nothing before it has ended the attempt.  It ends by its deadline at
    the first clock reading more than 10 seconds after the start, whatever
    is waiting on the socket then. *)
Theorem discovery_early_failure (start_time : float)
    (trace : list (float * recvfrom_event)) :
  (listen_for_offer start_time trace = ReceiveFailed <->
   exists pre now ev post,
     trace = pre ++ (now, ev) :: post /\
     listen_for_offer start_time pre = Listening /\
     float_gt (float_sub now start_time) lit_10 = false /\
     (ev = OtherError \/
      exists data addr, ev = Datagram data addr /\ (9 < length data)%nat)) /\
  (listen_for_offer start_time trace = DeadlineElapsed <->
   exists pre now ev post,
     trace = pre ++ (now, ev) :: post /\
     listen_for_offer start_time pre = Listening /\
     float_gt (float_sub now start_time) lit_10 = true).
Proof.
  unfold listen_for_offer. split.
  - rewrite (offer_loop_first_end start_time ReceiveFailed trace)
      by discriminate.
    split; intros (pre & now & ev & post & E & Hpre & H);
      exists pre, now, ev, post; (split; [exact E|]); (split; [exact Hpre|]).
    + apply single_receive_failed in H. exact H.
    + apply single_receive_failed. exact H.
  - rewrite (offer_loop_first_end start_time DeadlineElapsed trace)
      by discriminate.
    split; intros (pre & now & ev & post & E & Hpre & H);
      exists pre, now, ev, post; (split; [exact E|]); (split; [exact Hpre|]).
    + apply single_deadline in H. exact H.
    + apply single_deadline. exact H.
Qed.

End DiscoveryEnds.
